(** * Identifying the most valuable customers

    A shallow embedding of the notebook
    [Identifying-most-valuable-customers.ipynb]: the grouped aggregation of
    the transaction table, the churn label, the min-max scaling and the
    weighted score, the coupon arithmetic and the final selection.

    Conventions of the embedding.
    - A pandas table is a list of rows in index order; a column is the
      [map] of a field over the rows.
    - An integer column is a list of [Z].  A column whose entries all fit
      in 64 bits has the type int64 and its sums and differences wrap
      around as numpy's do; a column with a larger entry is a column of
      Python integers, whose arithmetic is exact.  The number of rows of a
      group is taken as it is.
    - The tables are functions of the list of transactions; [aggregation]
      and [notebook] add what the cells do on a file without rows, where
      pandas raises an exception.
    - A [float64] value is an exact rational or one of the three special
      values NaN, +inf, -inf.  Rounding of the binary format is not
      modelled; division by zero follows IEEE 754 as pandas does
      (0/0 is NaN, x/0 is an infinity), signed zeros are not told apart.
      The module [Binary64] evaluates the same formulas on the machine
      format, to compare with the figures the notebook prints.
    - A timestamp is a calendar date compared field by field. *)

From Stdlib Require Import ZArith QArith Qround List String Bool Lia Lqa.
From Stdlib Require Import OrdersEx Sorted Permutation.
From Stdlib Require PrimFloat.
Import ListNotations.

Set Warnings "-inexact-float".

Open Scope string_scope.
Open Scope list_scope.
Open Scope Z_scope.

(** ** Timestamps *)

Record datetime : Type := mk_datetime { year : Z; month : Z; day : Z }.

(** Chronological comparison: year, then month, then day. *)
Definition datetime_compare (a b : datetime) : comparison :=
  match year a ?= year b with
  | Eq => match month a ?= month b with
          | Eq => day a ?= day b
          | c => c
          end
  | c => c
  end.

Definition datetime_ltb (a b : datetime) : bool :=
  match datetime_compare a b with Lt => true | _ => false end.

(** The chronological order written out: [a] is strictly before [b]. *)
Definition datetime_lt (a b : datetime) : Prop :=
  year a < year b \/
  (year a = year b /\
   (month a < month b \/ (month a = month b /\ day a < day b))).

Definition datetime_le (a b : datetime) : Prop := datetime_lt a b \/ a = b.

(** ** The float64 values of the notebook *)

Inductive float64 : Type :=
| Fin (q : Q)
| NaN
| PInf
| NInf.

Definition fadd (x y : float64) : float64 :=
  match x, y with
  | NaN, _ | _, NaN => NaN
  | Fin a, Fin b => Fin (a + b)
  | PInf, NInf | NInf, PInf => NaN
  | PInf, _ | _, PInf => PInf
  | NInf, _ | _, NInf => NInf
  end.

Definition fmul (x y : float64) : float64 :=
  match x, y with
  | NaN, _ | _, NaN => NaN
  | Fin a, Fin b => Fin (a * b)
  | Fin a, PInf | PInf, Fin a =>
      match (a ?= 0)%Q with Eq => NaN | Gt => PInf | Lt => NInf end
  | Fin a, NInf | NInf, Fin a =>
      match (a ?= 0)%Q with Eq => NaN | Gt => NInf | Lt => PInf end
  | PInf, PInf | NInf, NInf => PInf
  | PInf, NInf | NInf, PInf => NInf
  end.

Definition fdiv (x y : float64) : float64 :=
  match x, y with
  | NaN, _ | _, NaN => NaN
  | Fin a, Fin b =>
      match (b ?= 0)%Q with
      | Eq => match (a ?= 0)%Q with Eq => NaN | Gt => PInf | Lt => NInf end
      | _ => Fin (a / b)
      end
  | Fin _, _ => Fin 0
  | PInf, Fin b => match (b ?= 0)%Q with Lt => NInf | _ => PInf end
  | NInf, Fin b => match (b ?= 0)%Q with Lt => PInf | _ => NInf end
  | _, _ => NaN
  end.

(** Conversion of an integer to float64. *)
Definition of_int (n : Z) : float64 := Fin (inject_Z n).

(** [a / b] on two integers is true division and yields a float64. *)
Definition truediv (a b : Z) : float64 := fdiv (of_int a) (of_int b).

(** [f] is the finite number [q]. *)
Definition is_fin (f : float64) (q : Q) : Prop :=
  match f with Fin p => (p == q)%Q | _ => False end.

(** IEEE comparison [x <= y]: false as soon as one side is NaN. *)
Definition fle (x y : float64) : Prop :=
  match x, y with
  | NaN, _ | _, NaN => False
  | Fin a, Fin b => (a <= b)%Q
  | NInf, _ | _, PInf => True
  | _, _ => False
  end.

(** ** 64-bit integers *)

Definition int64_min : Z := -9223372036854775808.
Definition int64_max : Z := 9223372036854775807.

Definition fits_int64 (z : Z) : bool :=
  (int64_min <=? z) && (z <=? int64_max).

(** The 64-bit two's complement integer congruent to [z]. *)
Definition wrap64 (z : Z) : Z :=
  (z + 9223372036854775808) mod 18446744073709551616 - 9223372036854775808.

(** The type of an integer column. *)
Inductive dtype : Type :=
| Int64
| Object.

Definition dtype_of (col : list Z) : dtype :=
  if forallb fits_int64 col then Int64 else Object.

(** Sum and difference of two entries of a column of type [t]. *)
Definition add_as (t : dtype) (a b : Z) : Z :=
  match t with
  | Int64 => wrap64 (a + b)
  | Object => a + b
  end.

Definition sub_as (t : dtype) (a b : Z) : Z :=
  match t with
  | Int64 => wrap64 (a - b)
  | Object => a - b
  end.

(** ** Series reductions *)

(** [Series.min()], [Series.max()] of an integer column; the result on an
    empty column is NaN, here [None]. *)
Definition series_min (col : list Z) : option Z :=
  match col with
  | [] => None
  | x :: xs => Some (fold_left Z.min xs x)
  end.

Definition series_max (col : list Z) : option Z :=
  match col with
  | [] => None
  | x :: xs => Some (fold_left Z.max xs x)
  end.

(** [sum()] over entries of a column of type [t]. *)
Definition series_sum (t : dtype) (col : list Z) : Z :=
  fold_left (add_as t) col 0.

(** [Series.mean()] of an integer column: the entries are added as float64
    numbers and the sum is divided by the number of rows; NaN when the
    column is empty. *)
Definition float_sum (col : list Z) : float64 :=
  fold_left (fun acc x => fadd acc (of_int x)) col (Fin 0).

Definition series_mean (col : list Z) : float64 :=
  fdiv (float_sum col) (of_int (Z.of_nat (List.length col))).

(** Latest of two timestamps, and [max()] of a timestamp column
    ([None] stands for NaT, the result on an empty column). *)
Definition later (m d : datetime) : datetime :=
  if datetime_ltb m d then d else m.

Definition series_max_date (col : list datetime) : option datetime :=
  match col with
  | [] => None
  | d :: ds => Some (fold_left later ds d)
  end.

(** ** The transaction table and its grouping *)

Record transaction : Type := mk_transaction {
  customer_id : string;
  trans_date : datetime;
  tran_amount : Z
}.

(** The order of the group keys: strings compared character by character. *)
Definition key_lt (a b : string) : Prop := String_as_OT.compare a b = Lt.

(** [groupby] sorts the group keys and keeps each key once. *)
Fixpoint insert_key (k : string) (ks : list string) : list string :=
  match ks with
  | [] => [k]
  | k' :: ks' =>
      match String_as_OT.compare k k' with
      | Lt => k :: ks
      | Eq => ks
      | Gt => k' :: insert_key k ks'
      end
  end.

Definition group_keys (data : list transaction) : list string :=
  fold_right insert_key [] (map customer_id data).

Definition group_rows (k : string) (data : list transaction) : list transaction :=
  filter (fun t => String.eqb (customer_id t) k) data.

(** [group_by_customer = data.groupby("customer_id")] *)
Definition group_by_customer (data : list transaction)
  : list (string * list transaction) :=
  map (fun k => (k, group_rows k data)) (group_keys data).

(** [last_transaction = group_by_customer["trans_date"].max()] *)
Definition last_transaction (data : list transaction)
  : list (string * option datetime) :=
  map (fun kg => (fst kg, series_max_date (map trans_date (snd kg))))
      (group_by_customer data).

(** [group_by_customer.size()] *)
Definition group_size (data : list transaction) : list (string * Z) :=
  map (fun kg => (fst kg, Z.of_nat (List.length (snd kg)))) (group_by_customer data).

(** [group_by_customer.sum()] (the amount column); the groups are summed
    in the type of the whole column. *)
Definition group_sum (data : list transaction) : list (string * Z) :=
  map (fun kg => (fst kg,
                  series_sum (dtype_of (map tran_amount data))
                                (map tran_amount (snd kg))))
      (group_by_customer data).

(** ** Churn label *)

(** [cutoff_day = dt.datetime(2019, 10, 16)] *)
Definition cutoff_day : datetime := mk_datetime 2019 10 16.

(** [lambda date: 1 if date < cutoff_day else 0]; a comparison with NaT is
    false. *)
Definition churned_label (date : option datetime) : Z :=
  match date with
  | Some d => if datetime_ltb d cutoff_day then 1 else 0
  | None => 0
  end.

(** ** The table [best_churn] *)

(** A row of [best_churn] once the three aggregates and the label are in
    place.  The notebook drops [trans_date] from the table after the label
    is computed; the row keeps it so that the aggregate can be stated. *)
Record customer : Type := mk_customer {
  cust_id : string;
  last_date : option datetime;
  churned : Z;
  nr_of_transactions : Z;
  amount_spent : Z
}.

Definition summarize (t : dtype) (kg : string * list transaction) : customer :=
  let last := series_max_date (map trans_date (snd kg)) in
  {| cust_id := fst kg;
     last_date := last;
     churned := churned_label last;
     nr_of_transactions := Z.of_nat (List.length (snd kg));
     amount_spent := series_sum t (map tran_amount (snd kg)) |}.

Definition best_churn (data : list transaction) : list customer :=
  map (summarize (dtype_of (map tran_amount data))) (group_by_customer data).

(** ** Feature scaling and score *)

Record scored : Type := mk_scored {
  summary : customer;
  scaled_tran : float64;
  scaled_amount : float64;
  score : float64
}.

(** [(x - col.min()) / (col.max() - col.min())] for one entry [x] of a
    column of type [t]: the two differences are integers of that type, the
    quotient is a float64.  The reductions of an empty column are NaN and
    so is every result. *)
Definition min_max_scale (t : dtype) (lo hi : option Z) (x : Z) : float64 :=
  match lo, hi with
  | Some lo, Some hi => truediv (sub_as t x lo) (sub_as t hi lo)
  | _, _ => NaN
  end.

(** [100*(.5*scaled_tran + .5*scaled_amount)] *)
Definition weighted_score (st sa : float64) : float64 :=
  fmul (Fin 100) (fadd (fmul (Fin (1 # 2)) st) (fmul (Fin (1 # 2)) sa)).

(** The three new entries of the row of customer [c]; the reductions run
    over the columns of the whole table. *)
Definition score_row (table : list customer) (c : customer) : scored :=
  let nr := map nr_of_transactions table in
  let am := map amount_spent table in
  let st := min_max_scale (dtype_of nr) (series_min nr) (series_max nr)
                          (nr_of_transactions c) in
  let sa := min_max_scale (dtype_of am) (series_min am) (series_max am)
                          (amount_spent c) in
  {| summary := c;
     scaled_tran := st;
     scaled_amount := sa;
     score := weighted_score st sa |}.

Definition scorer (table : list customer) : list scored :=
  map (score_row table) table.

(** ** Coupon arithmetic *)

(** [coupon = data["tran_amount"].mean()*0.3] *)
Definition coupon (data : list transaction) : float64 :=
  fmul (series_mean (map tran_amount data)) (Fin (3 # 10)).

(** [nr_of_customers = 1000/coupon] *)
Definition nr_of_customers (data : list transaction) : float64 :=
  fdiv (Fin 1000) (coupon data).

(** ** Selection *)

(** [DataFrame.head(n)]: the first [n] rows. *)
Definition head {A : Type} (n : nat) (table : list A) : list A := firstn n table.

(** [best_churn.loc[best_churn["churned"] == 1]] *)
Definition loc_churned (table : list scored) : list scored :=
  filter (fun r => churned (summary r) =? 1) table.

(** [top_50_churned = best_churn.loc[best_churn["churned"] == 1].head(50)] *)
Definition top_50_churned (table : list scored) : list scored :=
  head 50 (loc_churned table).

(** The whole notebook, from the transaction table to the selection. *)
Definition pipeline (data : list transaction) : list scored :=
  top_50_churned (scorer (best_churn data)).

(** ** Running the notebook on a file *)

(** What a cell does: it returns a value or raises an exception of the
    named class. *)
Inductive outcome (A : Type) : Type :=
| Returned (a : A)
| Raised (exception : string).

Arguments Returned {A} a.
Arguments Raised {A} exception.

(** The cell that assigns [group_by_customer.size()] and
    [group_by_customer.sum()] to [best_churn].  The table comes from
    [pd.read_csv]; on a file without rows its columns carry no numeric
    type and the assignment of the sums raises ValueError. *)
Definition aggregation (data : list transaction) : outcome (list customer) :=
  match data with
  | [] => Raised "ValueError"
  | _ :: _ => Returned (best_churn data)
  end.

(** The cells after it run only when it returned. *)
Definition notebook (data : list transaction) : outcome (list scored) :=
  match aggregation data with
  | Raised e => Raised e
  | Returned table => Returned (top_50_churned (scorer table))
  end.

(** ** The formulas on binary64 numbers *)

Module Binary64.
Import PrimFloat.

(** [(x - min) / (max - min)] *)
Definition scale (x lo hi : float) : float := ((x - lo) / (hi - lo))%float.

(** [100*(.5*scaled_tran + .5*scaled_amount)] *)
Definition score (st sa : float) : float :=
  (100 * (0.5 * st + 0.5 * sa))%float.

(** [mean()*0.3] for a column of sum [s] over [n] rows. *)
Definition coupon (s n : float) : float := (s / n * 0.3)%float.

(** [1000/coupon] *)
Definition nr_of_customers (s n : float) : float :=
  (1000 / coupon s n)%float.

(** The total amount and the number of rows of the table the notebook
    reads, and the coupon it prints. *)
Definition reference_total : float := 8123989%float.
Definition reference_rows : float := 125000%float.
Definition coupon_as_printed : float := 19.4975736%float.

End Binary64.

(** ** Reference statements *)

(** [m] is the least (greatest) entry of the column [col]. *)
Definition is_min (m : Z) (col : list Z) : Prop :=
  In m col /\ forall x, In x col -> m <= x.

Definition is_max (m : Z) (col : list Z) : Prop :=
  In m col /\ forall x, In x col -> x <= m.

(** Number of transactions of customer [c], and their summed amount, by a
    direct pass over the transaction table. *)
Fixpoint count_for (c : string) (data : list transaction) : Z :=
  match data with
  | [] => 0
  | t :: rest =>
      (if String.eqb (customer_id t) c then 1 else 0) + count_for c rest
  end.

Fixpoint total_for (c : string) (data : list transaction) : Z :=
  match data with
  | [] => 0
  | t :: rest =>
      (if String.eqb (customer_id t) c then tran_amount t else 0)
      + total_for c rest
  end.

(** [d] is the latest transaction date of customer [c]. *)
Definition is_latest_for (c : string) (data : list transaction) (d : datetime)
  : Prop :=
  (exists t, In t data /\ customer_id t = c /\ trans_date t = d) /\
  (forall t, In t data -> customer_id t = c -> datetime_le (trans_date t) d).

(** The exact sum of a column. *)
Definition exact_sum (col : list Z) : Z := fold_left Z.add col 0.

(** Modelled from the spec: rounding to the nearest unit, halves going up,
    as the coupon policy "rounds 19.50 to 20" has it.  The notebook has no
    code for the rounding: a text cell rounds the coupon to 20 by hand. *)
Definition round_half_up (q : Q) : Z := Qfloor (q + (1 # 2)).

(** Modelled from the spec: an amount to the cent, the form in which the
    spec quotes the mean (64.99) and the coupon (19.50). *)
Definition to_the_cent (q : Q) : Q := round_half_up (q * 100) # 100.

(** Modelled from the spec: the configuration option [coupon_rounding],
    "round to nearest unit, default rounds 19.50 to 20": the coupon is
    taken to the cent, then to the nearest unit. *)
Definition coupon_rounding (q : Q) : Z := round_half_up (to_the_cent q).

(** ** Sample tables *)

(** The five rows at the top of the table printed by the notebook. *)
Definition fm1112 : customer :=
  mk_customer "FM1112" (Some (mk_datetime 2019 10 14)) 1 15 1012.
Definition fm1113 : customer :=
  mk_customer "FM1113" (Some (mk_datetime 2019 11 9)) 0 20 1490.
Definition fm1114 : customer :=
  mk_customer "FM1114" (Some (mk_datetime 2019 11 12)) 0 19 1432.
Definition fm1115 : customer :=
  mk_customer "FM1115" (Some (mk_datetime 2019 12 5)) 0 22 1659.
Definition fm1116 : customer :=
  mk_customer "FM1116" (Some (mk_datetime 2019 5 25)) 1 13 857.

Definition first_five : list customer :=
  [fm1112; fm1113; fm1114; fm1115; fm1116].

(** Two customers with the same number of transactions. *)
Definition tied_counts : list customer :=
  [ mk_customer "A" (Some (mk_datetime 2019 10 14)) 1 3 10;
    mk_customer "B" (Some (mk_datetime 2019 11 9)) 0 3 20 ].

(** Two customers with the same amount spent. *)
Definition tied_amounts : list customer :=
  [ mk_customer "A" (Some (mk_datetime 2019 10 14)) 1 3 20;
    mk_customer "B" (Some (mk_datetime 2019 11 9)) 0 4 20 ].

(** Three transactions of two customers who both stopped buying before the
    cutoff: "A" bought once, "B" twice. *)
Definition two_churned : list transaction :=
  [ mk_transaction "B" (mk_datetime 2019 2 1) 20;
    mk_transaction "A" (mk_datetime 2019 1 1) 10;
    mk_transaction "B" (mk_datetime 2019 3 1) 20 ].

(** [n] copies of a transaction of amount [a] in front of [rest]. *)
Definition purchases (n : positive) (a : Z) (rest : list transaction)
  : list transaction :=
  Pos.iter (cons (mk_transaction "FM1112" (mk_datetime 2019 10 14) a)) rest n.

(** Eight transactions of four customers, every amount a 64-bit
    integer; the three amounts of "A" add up to 2^63 + 100, which is not
    one. *)
Definition overflowing : list transaction :=
  [ mk_transaction "A" (mk_datetime 2019 1 1) 4611686018427387904;
    mk_transaction "A" (mk_datetime 2019 2 1) 4611686018427387904;
    mk_transaction "A" (mk_datetime 2019 2 2) 100;
    mk_transaction "B" (mk_datetime 2019 3 1) 200;
    mk_transaction "C" (mk_datetime 2019 4 1) 1;
    mk_transaction "C" (mk_datetime 2019 4 2) 1;
    mk_transaction "C" (mk_datetime 2019 4 3) 3;
    mk_transaction "D" (mk_datetime 2019 5 1) 5 ].

(** As many transactions as the notebook reads (125000), of total amount
    8123989, that is of mean 64.991912. *)
Definition reference_size : list transaction :=
  purchases 123989 65 (purchases 1011 64 []).

(** Two float64 results are the same value: the same special value, or
    finite numbers that are equal as rationals. *)
Definition same_float (x y : float64) : Prop :=
  match x, y with
  | Fin a, Fin b => (a == b)%Q
  | NaN, NaN | PInf, PInf | NInf, NInf => True
  | _, _ => False
  end.

(** * Properties *)

(** Extremum of a column given by its entries. *)
Ltac extremum :=
  split; [simpl; tauto | simpl; intros ? ?; intuition lia].

(** ** Timestamps and the churn label *)

Lemma datetime_ltb_spec (a b : datetime) :
  datetime_ltb a b = true <-> datetime_lt a b.
Proof.
  unfold datetime_ltb, datetime_compare, datetime_lt.
  destruct (Z.compare_spec (year a) (year b));
    destruct (Z.compare_spec (month a) (month b));
    destruct (Z.compare_spec (day a) (day b));
    split; intros; try discriminate; try reflexivity; lia.
Qed.

Lemma datetime_ltb_false (a b : datetime) :
  datetime_ltb a b = false <-> datetime_le b a.
Proof.
  unfold datetime_ltb, datetime_compare, datetime_le, datetime_lt.
  destruct a as [ya ma da], b as [yb mb db]; simpl.
  destruct (Z.compare_spec ya yb);
    destruct (Z.compare_spec ma mb);
    destruct (Z.compare_spec da db);
    split; intros Hx; try discriminate; try reflexivity;
    try (subst; right; reflexivity);
    try (left; lia);
    try (destruct Hx as [Hx | Hx]; [lia | inversion Hx; lia]).
Qed.

Lemma datetime_le_refl (a : datetime) : datetime_le a a.
Proof. right; reflexivity. Qed.

Lemma datetime_le_trans (a b c : datetime) :
  datetime_le a b -> datetime_le b c -> datetime_le a c.
Proof.
  unfold datetime_le, datetime_lt.
  intros [Hab | ->] [Hbc | ->]; auto.
  left; lia.
Qed.

(** C2.  A customer is labelled churned exactly when the last transaction
    date is strictly before the cutoff date, for a date taken alone and for
    every row of the summary table; with the cutoff 2019-10-16 a last
    transaction on 2019-10-14 is churned and one on 2019-10-16 is not. *)
Theorem churned_iff_before_cutoff :
  (forall d : datetime,
      churned_label (Some d) = 1 <-> datetime_lt d cutoff_day) /\
  (forall d : datetime,
      churned_label (Some d) = 0 <-> ~ datetime_lt d cutoff_day) /\
  (forall (data : list transaction) (c : customer),
      In c (best_churn data) ->
      (churned c = 1 <->
       exists d, last_date c = Some d /\ datetime_lt d cutoff_day)) /\
  cutoff_day = mk_datetime 2019 10 16 /\
  churned_label (Some (mk_datetime 2019 10 14)) = 1 /\
  churned_label (Some (mk_datetime 2019 10 16)) = 0.
Proof.
  assert (H1 : forall d, churned_label (Some d) = 1 <-> datetime_lt d cutoff_day).
  { intros d; simpl. rewrite <- datetime_ltb_spec.
    destruct (datetime_ltb d cutoff_day); split; intros; try reflexivity;
      discriminate. }
  repeat split; try reflexivity; try apply H1.
  - intros H0 Hlt. apply H1 in Hlt. rewrite H0 in Hlt. discriminate.
  - intros Hn. simpl. destruct (datetime_ltb d cutoff_day) eqn:E; auto.
    exfalso; apply Hn, datetime_ltb_spec, E.
  - intros Hc. unfold best_churn in H. apply in_map_iff in H.
    destruct H as [kg [<- _]]. simpl in *.
    destruct (series_max_date (map trans_date (snd kg))) as [d|]; simpl in Hc.
    + exists d; split; auto. apply H1. exact Hc.
    + discriminate.
  - intros [d [Hd Hlt]]. unfold best_churn in H. apply in_map_iff in H.
    destruct H as [kg [<- _]]. simpl in *. rewrite Hd. apply H1, Hlt.
Qed.

(** ** Series reductions *)

Lemma later_ub (m d : datetime) :
  datetime_le m (later m d) /\ datetime_le d (later m d) /\
  (later m d = m \/ later m d = d).
Proof.
  unfold later. destruct (datetime_ltb m d) eqn:E.
  - apply datetime_ltb_spec in E. repeat split; auto.
    + left; exact E.
    + apply datetime_le_refl.
  - apply datetime_ltb_false in E. repeat split; auto.
    apply datetime_le_refl.
Qed.

Lemma fold_later_spec (ds : list datetime) (d : datetime) :
  let r := fold_left later ds d in
  In r (d :: ds) /\ forall x, In x (d :: ds) -> datetime_le x r.
Proof.
  revert d. induction ds as [| e ds IH]; intros d; simpl.
  - split; auto. intros x [<- | []]. apply datetime_le_refl.
  - destruct (IH (later d e)) as [Hin Hub]. simpl in Hin, Hub.
    destruct (later_ub d e) as [Hd [He Hcase]].
    split.
    + destruct Hin as [Hin | Hin]; auto.
      rewrite <- Hin. destruct Hcase as [-> | ->]; auto.
    + intros x [<- | [<- | Hx]].
      * eapply datetime_le_trans; [exact Hd | apply Hub; auto].
      * eapply datetime_le_trans; [exact He | apply Hub; auto].
      * apply Hub; auto.
Qed.

Lemma series_max_date_spec (col : list datetime) (d : datetime) :
  series_max_date col = Some d ->
  In d col /\ forall x, In x col -> datetime_le x d.
Proof.
  destruct col as [| e es]; simpl; [discriminate |].
  intros H; injection H as <-. apply fold_later_spec.
Qed.

Lemma fold_min_spec (xs : list Z) (x : Z) :
  is_min (fold_left Z.min xs x) (x :: xs).
Proof.
  revert x. induction xs as [| y ys IH]; intros x; simpl.
  - split; simpl; auto. intros z [<- | []]; lia.
  - destruct (IH (Z.min x y)) as [Hin Hlb]. split.
    + simpl in Hin |- *. destruct Hin as [Hin | Hin]; auto.
      rewrite <- Hin. destruct (Z.min_spec x y) as [[_ ->] | [_ ->]]; auto.
    + intros z Hz.
      assert (Hm : fold_left Z.min ys (Z.min x y) <= Z.min x y)
        by (apply Hlb; simpl; auto).
      simpl in Hz. destruct Hz as [<- | [<- | Hz]]; try lia.
      apply Hlb; simpl; auto.
Qed.

Lemma fold_max_spec (xs : list Z) (x : Z) :
  is_max (fold_left Z.max xs x) (x :: xs).
Proof.
  revert x. induction xs as [| y ys IH]; intros x; simpl.
  - split; simpl; auto. intros z [<- | []]; lia.
  - destruct (IH (Z.max x y)) as [Hin Hub]. split.
    + simpl in Hin |- *. destruct Hin as [Hin | Hin]; auto.
      rewrite <- Hin. destruct (Z.max_spec x y) as [[_ ->] | [_ ->]]; auto.
    + intros z Hz.
      assert (Hm : Z.max x y <= fold_left Z.max ys (Z.max x y))
        by (apply Hub; simpl; auto).
      simpl in Hz. destruct Hz as [<- | [<- | Hz]]; try lia.
      apply Hub; simpl; auto.
Qed.

Lemma is_min_unique (col : list Z) (m m' : Z) :
  is_min m col -> is_min m' col -> m = m'.
Proof.
  intros [Hin Hlb] [Hin' Hlb']. apply Hlb in Hin'. apply Hlb' in Hin. lia.
Qed.

Lemma is_max_unique (col : list Z) (m m' : Z) :
  is_max m col -> is_max m' col -> m = m'.
Proof.
  intros [Hin Hub] [Hin' Hub']. apply Hub in Hin'. apply Hub' in Hin. lia.
Qed.

Lemma series_min_is_min (col : list Z) (m : Z) :
  is_min m col -> series_min col = Some m.
Proof.
  intros Hm. destruct col as [| x xs].
  - destruct Hm as [[] _].
  - simpl. f_equal. eapply is_min_unique; [apply fold_min_spec | exact Hm].
Qed.

Lemma series_max_is_max (col : list Z) (m : Z) :
  is_max m col -> series_max col = Some m.
Proof.
  intros Hm. destruct col as [| x xs].
  - destruct Hm as [[] _].
  - simpl. f_equal. eapply is_max_unique; [apply fold_max_spec | exact Hm].
Qed.

Lemma series_min_exists (col : list Z) :
  col <> [] -> exists m, is_min m col.
Proof.
  destruct col as [| x xs]; [congruence |].
  intros _. eexists. apply fold_min_spec.
Qed.

Lemma series_max_exists (col : list Z) :
  col <> [] -> exists m, is_max m col.
Proof.
  destruct col as [| x xs]; [congruence |].
  intros _. eexists. apply fold_max_spec.
Qed.

Lemma fold_add_shift (l : list Z) (a : Z) :
  fold_left Z.add l a = a + fold_left Z.add l 0.
Proof.
  revert a. induction l as [| x l IH]; intros a; simpl.
  - lia.
  - rewrite (IH (a + x)), (IH x). lia.
Qed.

Lemma exact_sum_cons (x : Z) (l : list Z) :
  exact_sum (x :: l) = x + exact_sum l.
Proof. unfold exact_sum. simpl. apply fold_add_shift. Qed.

(** ** 64-bit arithmetic *)

Lemma fits_int64_iff (z : Z) :
  fits_int64 z = true <-> int64_min <= z <= int64_max.
Proof.
  unfold fits_int64. rewrite andb_true_iff, !Z.leb_le. tauto.
Qed.

Lemma wrap64_fits (z : Z) : fits_int64 (wrap64 z) = true.
Proof.
  apply fits_int64_iff. unfold wrap64, int64_min, int64_max.
  pose proof (Z.mod_pos_bound (z + 9223372036854775808)
                              18446744073709551616 eq_refl).
  lia.
Qed.

Lemma wrap64_small (z : Z) :
  int64_min <= z <= int64_max -> wrap64 z = z.
Proof.
  unfold wrap64, int64_min, int64_max. intros H.
  rewrite Z.mod_small; lia.
Qed.

Lemma wrap64_add_l (a b : Z) : wrap64 (wrap64 a + b) = wrap64 (a + b).
Proof.
  unfold wrap64. f_equal.
  replace (a + 9223372036854775808) with (9223372036854775808 + a) by lia.
  replace ((9223372036854775808 + a) mod 18446744073709551616
           - 9223372036854775808 + b + 9223372036854775808)
    with ((9223372036854775808 + a) mod 18446744073709551616 + b) by lia.
  rewrite Zplus_mod_idemp_l. f_equal. lia.
Qed.

Lemma wrap64_congruent (z : Z) :
  (wrap64 z - z) mod 18446744073709551616 = 0.
Proof.
  unfold wrap64.
  pose proof (Z.div_mod (z + 9223372036854775808) 18446744073709551616).
  replace ((z + 9223372036854775808) mod 18446744073709551616
           - 9223372036854775808 - z)
    with (- ((z + 9223372036854775808) / 18446744073709551616)
          * 18446744073709551616) by lia.
  apply Z.mod_mul. lia.
Qed.

Lemma wrap64_nonzero (d : Z) :
  0 < d < 18446744073709551616 -> wrap64 d <> 0.
Proof.
  intros Hd E. pose proof (wrap64_congruent d) as C. rewrite E in C.
  simpl in C. apply Z.mod_opp_l_z in C; [| lia].
  rewrite Z.opp_involutive, Z.mod_small in C; lia.
Qed.

Lemma dtype_int64_fits (col : list Z) (x : Z) :
  dtype_of col = Int64 -> In x col -> int64_min <= x <= int64_max.
Proof.
  unfold dtype_of. destruct (forallb fits_int64 col) eqn:E; [| discriminate].
  intros _ Hx. rewrite forallb_forall in E. apply fits_int64_iff, E, Hx.
Qed.

Lemma dtype_of_all_fit (col : list Z) :
  (forall x, In x col -> fits_int64 x = true) -> dtype_of col = Int64.
Proof.
  intros H. unfold dtype_of.
  rewrite (proj2 (forallb_forall fits_int64 col) H). reflexivity.
Qed.

Lemma dtype_of_same_entries (col col' : list Z) :
  (forall x, In x col' <-> In x col) -> dtype_of col' = dtype_of col.
Proof.
  intros H. unfold dtype_of.
  destruct (forallb fits_int64 col) eqn:E, (forallb fits_int64 col') eqn:E';
    try reflexivity.
  - rewrite forallb_forall in E.
    assert (F : forallb fits_int64 col' = true)
      by (apply forallb_forall; intros x Hx; apply E, H, Hx).
    congruence.
  - rewrite forallb_forall in E'.
    assert (F : forallb fits_int64 col = true)
      by (apply forallb_forall; intros x Hx; apply E', H, Hx).
    congruence.
Qed.

Lemma series_sum_int64 (col : list Z) :
  series_sum Int64 col = wrap64 (exact_sum col).
Proof.
  unfold series_sum.
  assert (G : forall l a, fold_left (add_as Int64) l (wrap64 a)
                          = wrap64 (a + exact_sum l)).
  { induction l as [| x l IH]; intros a.
    - simpl. unfold exact_sum; simpl. rewrite Z.add_0_r. reflexivity.
    - simpl. rewrite wrap64_add_l, IH, exact_sum_cons. f_equal. lia. }
  exact (G col 0).
Qed.

Lemma series_sum_object (col : list Z) :
  series_sum Object col = exact_sum col.
Proof. reflexivity. Qed.

Lemma series_sum_congruent (t : dtype) (col : list Z) :
  (series_sum t col - exact_sum col) mod 18446744073709551616 = 0.
Proof.
  destruct t.
  - rewrite series_sum_int64. apply wrap64_congruent.
  - rewrite series_sum_object, Z.sub_diag. reflexivity.
Qed.

Lemma series_sum_exact (t : dtype) (col : list Z) :
  fits_int64 (exact_sum col) = true -> series_sum t col = exact_sum col.
Proof.
  intros H. destruct t; [| reflexivity].
  rewrite series_sum_int64. apply wrap64_small, fits_int64_iff, H.
Qed.

(** ** Grouping *)

Section GroupKeys.

Implicit Types (k x : string) (ks : list string).

Lemma key_lt_trans (a b c : string) : key_lt a b -> key_lt b c -> key_lt a c.
Proof. apply String_as_OT.lt_strorder. Qed.

Lemma key_lt_irrefl (a : string) : ~ key_lt a a.
Proof. apply String_as_OT.lt_strorder. Qed.

Lemma insert_key_in (k x : string) (ks : list string) :
  In x (insert_key k ks) <-> x = k \/ In x ks.
Proof.
  induction ks as [| k' ks IH]; simpl.
  - intuition.
  - destruct (String_as_OT.compare_spec k k') as [E | L | G]; simpl.
    + replace k' with k by exact E. intuition.
    + intuition.
    + rewrite IH. intuition.
Qed.

Lemma insert_key_sorted (k : string) (ks : list string) :
  StronglySorted key_lt ks -> StronglySorted key_lt (insert_key k ks).
Proof.
  induction 1 as [| k' ks Hs IH Hall]; simpl.
  - repeat constructor.
  - destruct (String_as_OT.compare_spec k k') as [E | L | G].
    + constructor; assumption.
    + constructor; [constructor; assumption |].
      constructor; [exact L |].
      eapply Forall_impl; [| exact Hall].
      intros y Hy. eapply key_lt_trans; eassumption.
    + constructor; [exact IH |].
      apply Forall_forall. intros y Hy.
      apply insert_key_in in Hy. destruct Hy as [-> | Hy]; [exact G |].
      rewrite Forall_forall in Hall. apply Hall, Hy.
Qed.

Lemma sorted_keys_nodup (ks : list string) :
  StronglySorted key_lt ks -> NoDup ks.
Proof.
  induction 1 as [| k ks Hs IH Hall]; constructor; [| exact IH].
  intros Hin. rewrite Forall_forall in Hall.
  exact (key_lt_irrefl k (Hall k Hin)).
Qed.

Lemma group_keys_sorted (data : list transaction) :
  StronglySorted key_lt (group_keys data).
Proof.
  unfold group_keys. induction data as [| t data IH]; simpl.
  - constructor.
  - apply insert_key_sorted, IH.
Qed.

End GroupKeys.

Lemma group_keys_in (data : list transaction) (c : string) :
  In c (group_keys data) <-> In c (map customer_id data).
Proof.
  unfold group_keys. induction data as [| t data IH]; simpl.
  - tauto.
  - rewrite insert_key_in, IH. intuition.
Qed.

Lemma group_keys_nodup (data : list transaction) : NoDup (group_keys data).
Proof. apply sorted_keys_nodup, group_keys_sorted. Qed.

Lemma filter_key_absent (c : string) (ks : list string) :
  ~ In c ks -> filter (fun k => String.eqb k c) ks = [].
Proof.
  induction ks as [| k ks IH]; simpl; [reflexivity |].
  intros Hn. destruct (String.eqb_spec k c) as [-> | _].
  - exfalso; apply Hn; auto.
  - apply IH. intros Hin; apply Hn; auto.
Qed.

Lemma filter_key_nodup (c : string) (ks : list string) :
  NoDup ks -> In c ks -> filter (fun k => String.eqb k c) ks = [c].
Proof.
  induction 1 as [| k ks Hk Hnd IH]; simpl; [tauto |].
  intros [-> | Hin].
  - rewrite String.eqb_refl. f_equal. apply filter_key_absent, Hk.
  - destruct (String.eqb_spec k c) as [-> | _]; [contradiction | auto].
Qed.

(** ** The aggregator *)

Lemma group_rows_in (c : string) (data : list transaction) (t : transaction) :
  In t (group_rows c data) <-> In t data /\ customer_id t = c.
Proof.
  unfold group_rows. rewrite filter_In.
  destruct (String.eqb_spec (customer_id t) c); intuition discriminate.
Qed.

Lemma group_rows_count (c : string) (data : list transaction) :
  Z.of_nat (List.length (group_rows c data)) = count_for c data.
Proof.
  unfold group_rows. induction data as [| t data IH]; simpl; [reflexivity |].
  destruct (String.eqb (customer_id t) c); simpl List.length; lia.
Qed.

Lemma group_rows_total (c : string) (data : list transaction) :
  exact_sum (map tran_amount (group_rows c data)) = total_for c data.
Proof.
  unfold group_rows. induction data as [| t data IH]; simpl; [reflexivity |].
  destruct (String.eqb (customer_id t) c); simpl.
  - rewrite exact_sum_cons, IH. reflexivity.
  - exact IH.
Qed.

Lemma amounts_int64 (data : list transaction) :
  (forall t, In t data -> fits_int64 (tran_amount t) = true) ->
  dtype_of (map tran_amount data) = Int64.
Proof.
  intros H. apply dtype_of_all_fit. intros x Hx.
  apply in_map_iff in Hx. destruct Hx as [t [<- Ht]]. apply H, Ht.
Qed.

Lemma group_rows_latest (c : string) (data : list transaction) :
  In c (map customer_id data) ->
  exists d, series_max_date (map trans_date (group_rows c data)) = Some d /\
            is_latest_for c data d.
Proof.
  intros Hc. apply in_map_iff in Hc. destruct Hc as [t [Hid Ht]].
  assert (Hg : In t (group_rows c data)) by (apply group_rows_in; auto).
  destruct (series_max_date (map trans_date (group_rows c data)))
    as [d |] eqn:E.
  - exists d. split; [reflexivity |].
    apply series_max_date_spec in E. destruct E as [Hin Hub]. split.
    + apply in_map_iff in Hin. destruct Hin as [u [Hu Hin]].
      apply group_rows_in in Hin. exists u. tauto.
    + intros u Hu Hcu. apply Hub, in_map, group_rows_in. auto.
  - destruct (group_rows c data); [destruct Hg | discriminate].
Qed.

Lemma filter_map_key (c : string) (ks : list string) (f : string -> customer) :
  (forall k, cust_id (f k) = k) ->
  filter (fun r => String.eqb (cust_id r) c) (map f ks)
  = map f (filter (fun k => String.eqb k c) ks).
Proof.
  intros Hf. induction ks as [| k ks IH]; simpl; [reflexivity |].
  rewrite Hf. destruct (String.eqb k c); simpl; rewrite IH; reflexivity.
Qed.

Lemma best_churn_keys (data : list transaction) :
  best_churn data
  = map (fun k => summarize (dtype_of (map tran_amount data))
                            (k, group_rows k data))
        (group_keys data).
Proof. unfold best_churn, group_by_customer. apply map_map. Qed.

(** The columns of [best_churn] are the series the notebook assigns:
    [last_transaction], the label applied to it, [size()] and [sum()]. *)
Lemma best_churn_columns (data : list transaction) :
  map (fun c => (cust_id c, last_date c)) (best_churn data)
  = last_transaction data /\
  map churned (best_churn data)
  = map (fun kv => churned_label (snd kv)) (last_transaction data) /\
  map (fun c => (cust_id c, nr_of_transactions c)) (best_churn data)
  = group_size data /\
  map (fun c => (cust_id c, amount_spent c)) (best_churn data)
  = group_sum data.
Proof.
  unfold best_churn, last_transaction, group_size, group_sum.
  rewrite !map_map. repeat split; reflexivity.
Qed.



(** ** Float arithmetic on finite values *)

Lemma truediv_nonzero (a b : Z) :
  b <> 0 -> truediv a b = Fin (inject_Z a / inject_Z b).
Proof.
  intros Hb. unfold truediv, of_int, fdiv.
  assert (E : (inject_Z b ?= 0)%Q = (b ?= 0)%Z).
  { unfold Qcompare; simpl. rewrite Z.mul_1_r. reflexivity. }
  rewrite E. destruct (Z.compare_spec b 0); [contradiction | |]; reflexivity.
Qed.

Lemma truediv_zero_zero : truediv 0 0 = NaN.
Proof. reflexivity. Qed.

Lemma weighted_score_fin (st sa : Q) :
  weighted_score (Fin st) (Fin sa)
  = Fin (100 * ((1 # 2) * st + (1 # 2) * sa)).
Proof. reflexivity. Qed.

Lemma weighted_score_nan_l (sa : float64) : weighted_score NaN sa = NaN.
Proof. destruct sa; reflexivity. Qed.

Lemma weighted_score_nan_r (st : float64) : weighted_score st NaN = NaN.
Proof.
  unfold weighted_score.
  assert (E : forall x, fadd x (fmul (Fin (1 # 2)) NaN) = NaN)
    by (intros x; destruct x; reflexivity).
  rewrite E. reflexivity.
Qed.

Lemma ratio_as_fraction (n d : Z) :
  0 < d -> (inject_Z n / inject_Z d == n # Z.to_pos d)%Q.
Proof.
  intros Hd. destruct d as [| p | p]; try lia.
  simpl. symmetry. apply Qmake_Qdiv.
Qed.

Lemma ratio_formula (x lo hi : Z) :
  (inject_Z (x - lo) / inject_Z (hi - lo)
   == (inject_Z x - inject_Z lo) / (inject_Z hi - inject_Z lo))%Q.
Proof.
  unfold Z.sub, Qminus.
  rewrite !inject_Z_plus, !inject_Z_opp. reflexivity.
Qed.

Lemma ratio_bounds (x lo hi : Z) :
  lo <= x <= hi -> lo < hi ->
  (0 <= inject_Z (x - lo) / inject_Z (hi - lo) <= 1)%Q.
Proof.
  intros Hx Hlt. rewrite ratio_as_fraction by lia.
  unfold Qle; simpl. rewrite Z2Pos.id by lia. lia.
Qed.

Lemma ratio_at_min (lo hi : Z) :
  lo < hi -> (inject_Z (lo - lo) / inject_Z (hi - lo) == 0)%Q.
Proof.
  intros Hlt. rewrite ratio_as_fraction by lia.
  unfold Qeq; simpl. lia.
Qed.

Lemma ratio_at_max (lo hi : Z) :
  lo < hi -> (inject_Z (hi - lo) / inject_Z (hi - lo) == 1)%Q.
Proof.
  intros Hlt. rewrite ratio_as_fraction by lia.
  unfold Qeq; simpl. rewrite Z2Pos.id by lia. lia.
Qed.

Lemma ratio_monotone (x y lo hi : Z) :
  lo < hi -> x <= y ->
  (inject_Z (x - lo) / inject_Z (hi - lo)
   <= inject_Z (y - lo) / inject_Z (hi - lo))%Q.
Proof.
  intros Hlt Hxy. rewrite !ratio_as_fraction by lia.
  unfold Qle; simpl. apply Z.mul_le_mono_nonneg_r; lia.
Qed.

(** ** The scorer *)

Lemma spread_distinct (col : list Z) (lo hi : Z) :
  is_min lo col -> is_max hi col ->
  (exists x y, In x col /\ In y col /\ x <> y) -> lo < hi.
Proof.
  intros [_ Hlo] [_ Hhi] [x [y [Hx [Hy Hxy]]]].
  pose proof (Hlo x Hx). pose proof (Hlo y Hy).
  pose proof (Hhi x Hx). pose proof (Hhi y Hy). lia.
Qed.

Lemma spread_order (col : list Z) (lo hi : Z) :
  is_min lo col -> is_max hi col -> lo <= hi.
Proof. intros [Hin Hlo] [_ Hhi]. apply Hhi, Hin. Qed.

Lemma sub_as_diag (t : dtype) (x : Z) : sub_as t x x = 0.
Proof. destruct t; simpl; rewrite Z.sub_diag; reflexivity. Qed.

(** A difference inside a column whose spread is a 64-bit integer does not
    wrap. *)
Lemma sub_as_exact (col : list Z) (lo hi x : Z) :
  is_min lo col -> is_max hi col -> hi - lo <= int64_max -> In x col ->
  sub_as (dtype_of col) x lo = x - lo.
Proof.
  intros [_ Lb] [_ Ub] Hfit Hx.
  destruct (dtype_of col); [| reflexivity].
  simpl. apply wrap64_small.
  pose proof (Lb x Hx). pose proof (Ub x Hx).
  unfold int64_min, int64_max in *. lia.
Qed.

Lemma min_max_scale_regular (col : list Z) (lo hi x : Z) :
  is_min lo col -> is_max hi col -> lo <> hi ->
  hi - lo <= int64_max -> In x col ->
  min_max_scale (dtype_of col) (series_min col) (series_max col) x
  = Fin (inject_Z (x - lo) / inject_Z (hi - lo)).
Proof.
  intros Hlo Hhi Hne Hfit Hx.
  rewrite (series_min_is_min _ _ Hlo), (series_max_is_max _ _ Hhi).
  simpl.
  rewrite (sub_as_exact col lo hi x) by assumption.
  rewrite (sub_as_exact col lo hi hi) by (assumption || apply Hhi).
  apply truediv_nonzero. lia.
Qed.

(** With distinct extremes the denominator is not zero, wrapped or not,
    and the scaled value is a finite number. *)
Lemma min_max_scale_finite (col : list Z) (lo hi x : Z) :
  is_min lo col -> is_max hi col -> lo <> hi ->
  exists q,
    min_max_scale (dtype_of col) (series_min col) (series_max col) x = Fin q.
Proof.
  intros Hlo Hhi Hne.
  rewrite (series_min_is_min _ _ Hlo), (series_max_is_max _ _ Hhi).
  simpl.
  assert (Hd : sub_as (dtype_of col) hi lo <> 0).
  { pose proof (spread_order _ _ _ Hlo Hhi).
    destruct (dtype_of col) eqn:E; simpl; [| lia].
    apply wrap64_nonzero.
    pose proof (dtype_int64_fits col lo E (proj1 Hlo)).
    pose proof (dtype_int64_fits col hi E (proj1 Hhi)).
    unfold int64_min, int64_max in *. lia. }
  rewrite truediv_nonzero by exact Hd. eauto.
Qed.

Lemma min_max_scale_degenerate (t : dtype) (col : list Z) (x : Z) :
  In x col -> (forall y z, In y col -> In z col -> y = z) ->
  min_max_scale t (series_min col) (series_max col) x = NaN.
Proof.
  intros Hx Hall.
  assert (Hlo : is_min x col).
  { split; auto. intros y Hy. rewrite (Hall x y Hx Hy). lia. }
  assert (Hhi : is_max x col).
  { split; auto. intros y Hy. rewrite (Hall x y Hx Hy). lia. }
  rewrite (series_min_is_min _ _ Hlo), (series_max_is_max _ _ Hhi).
  simpl. rewrite sub_as_diag. apply truediv_zero_zero.
Qed.

Lemma scorer_rows (table : list customer) (r : scored) :
  In r (scorer table) <-> exists c, In c table /\ r = score_row table c.
Proof.
  unfold scorer. rewrite in_map_iff. split; intros [c [H1 H2]]; eauto.
Qed.

Lemma scorer_keeps_rows (table : list customer) :
  map summary (scorer table) = table.
Proof.
  unfold scorer. rewrite map_map. simpl. apply map_id.
Qed.

Section Scoring.

Variable table : list customer.
Variables lo_n hi_n lo_a hi_a : Z.

Hypothesis min_n : is_min lo_n (map nr_of_transactions table).
Hypothesis max_n : is_max hi_n (map nr_of_transactions table).
Hypothesis min_a : is_min lo_a (map amount_spent table).
Hypothesis max_a : is_max hi_a (map amount_spent table).
Hypothesis spread_n : lo_n <> hi_n.
Hypothesis spread_a : lo_a <> hi_a.
Hypothesis fit_n : hi_n - lo_n <= int64_max.
Hypothesis fit_a : hi_a - lo_a <= int64_max.

Lemma score_row_regular (c : customer) :
  In c table ->
  score_row table c
  = let st := (inject_Z (nr_of_transactions c - lo_n)
               / inject_Z (hi_n - lo_n))%Q in
    let sa := (inject_Z (amount_spent c - lo_a)
               / inject_Z (hi_a - lo_a))%Q in
    {| summary := c;
       scaled_tran := Fin st;
       scaled_amount := Fin sa;
       score := Fin (100 * ((1 # 2) * st + (1 # 2) * sa)) |}.
Proof.
  intros Hc. unfold score_row.
  rewrite (min_max_scale_regular _ lo_n hi_n)
    by (assumption || apply in_map, Hc).
  rewrite (min_max_scale_regular _ lo_a hi_a)
    by (assumption || apply in_map, Hc).
  reflexivity.
Qed.

Lemma count_in_range (c : customer) :
  In c table -> lo_n <= nr_of_transactions c <= hi_n.
Proof.
  intros Hc. destruct min_n as [_ Hlo], max_n as [_ Hhi].
  split; [apply Hlo | apply Hhi]; apply in_map, Hc.
Qed.

Lemma amount_in_range (c : customer) :
  In c table -> lo_a <= amount_spent c <= hi_a.
Proof.
  intros Hc. destruct min_a as [_ Hlo], max_a as [_ Hhi].
  split; [apply Hlo | apply Hhi]; apply in_map, Hc.
Qed.

Lemma spread_n_pos : lo_n < hi_n.
Proof. pose proof (spread_order _ _ _ min_n max_n). lia. Qed.

Lemma spread_a_pos : lo_a < hi_a.
Proof. pose proof (spread_order _ _ _ min_a max_a). lia. Qed.

End Scoring.

(** The summary rows of the sample whose amounts overflow. *)
Lemma overflowing_summary :
  best_churn overflowing
  = [ mk_customer "A" (Some (mk_datetime 2019 2 2)) 1 3
                  (-9223372036854775708);
      mk_customer "B" (Some (mk_datetime 2019 3 1)) 1 1 200;
      mk_customer "C" (Some (mk_datetime 2019 4 3)) 1 3 5;
      mk_customer "D" (Some (mk_datetime 2019 5 1)) 1 1 5 ].
Proof. reflexivity. Qed.

(** C1, counterexample.  In the summary table of the overflowing sample
    the amounts range from -2^63 + 100 to 200 and the counts from 1 to 3.
    For customer "C", whose amount is 5, (5 - min) / (max - min) is
    positive, but the scaled amount is negative, about -1: the
    denominator max - min has wrapped around. *)
Lemma scaled_amount_off_formula :
  let table := best_churn overflowing in
  let c := mk_customer "C" (Some (mk_datetime 2019 4 3)) 1 3 5 in
  In c table /\
  is_min 1 (map nr_of_transactions table) /\
  is_max 3 (map nr_of_transactions table) /\
  is_min (-9223372036854775708) (map amount_spent table) /\
  is_max 200 (map amount_spent table) /\
  exists q,
    scaled_amount (score_row table c) = Fin q /\
    (q < - (99 # 100))%Q /\
    (0 < (inject_Z 5 - inject_Z (-9223372036854775708))
         / (inject_Z 200 - inject_Z (-9223372036854775708)))%Q /\
    ~ (q == (inject_Z 5 - inject_Z (-9223372036854775708))
            / (inject_Z 200 - inject_Z (-9223372036854775708)))%Q.
Proof.
  cbv zeta. rewrite overflowing_summary.
  split; [simpl; tauto |].
  repeat (split; [extremum |]).
  eexists. split; [vm_compute; reflexivity |].
  split; [vm_compute; reflexivity |].
  split; [vm_compute; reflexivity |].
  vm_compute. discriminate.
Qed.

(** C1, as the code has it.  In a table where the transaction counts are
    not all equal, the amounts are not all equal, and the counts as well as
    the amounts lie no further apart than the largest 64-bit integer (the
    differences do not wrap), the scorer keeps every customer and gives
    each the scaled count (count - min) / (max - min), the scaled amount
    (amount - min) / (max - min) and the score
    100 * (0.5 * scaled count + 0.5 * scaled amount), the minima and maxima
    being those of the whole table. *)
Theorem scorer_min_max_formula (table : list customer) :
  table <> [] ->
  (exists a b, In a table /\ In b table /\
               nr_of_transactions a <> nr_of_transactions b) ->
  (exists a b, In a table /\ In b table /\
               amount_spent a <> amount_spent b) ->
  (forall a b, In a table -> In b table ->
               nr_of_transactions b - nr_of_transactions a <= int64_max) ->
  (forall a b, In a table -> In b table ->
               amount_spent b - amount_spent a <= int64_max) ->
  exists lo_n hi_n lo_a hi_a : Z,
    is_min lo_n (map nr_of_transactions table) /\
    is_max hi_n (map nr_of_transactions table) /\
    is_min lo_a (map amount_spent table) /\
    is_max hi_a (map amount_spent table) /\
    map summary (scorer table) = table /\
    forall r, In r (scorer table) ->
      exists st sa : Q,
        scaled_tran r = Fin st /\
        scaled_amount r = Fin sa /\
        (st == (inject_Z (nr_of_transactions (summary r)) - inject_Z lo_n)
               / (inject_Z hi_n - inject_Z lo_n))%Q /\
        (sa == (inject_Z (amount_spent (summary r)) - inject_Z lo_a)
               / (inject_Z hi_a - inject_Z lo_a))%Q /\
        is_fin (score r) (100 * ((1 # 2) * st + (1 # 2) * sa)).
Proof.
  intros Hne Hn Ha Fn Fa.
  assert (Hcol : forall f : customer -> Z, map f table <> []).
  { intros f E. apply map_eq_nil in E. contradiction. }
  destruct (series_min_exists _ (Hcol nr_of_transactions)) as [lo_n min_n].
  destruct (series_max_exists _ (Hcol nr_of_transactions)) as [hi_n max_n].
  destruct (series_min_exists _ (Hcol amount_spent)) as [lo_a min_a].
  destruct (series_max_exists _ (Hcol amount_spent)) as [hi_a max_a].
  assert (spread_n : lo_n <> hi_n).
  { destruct Hn as [a [b [Hia [Hib Hab]]]].
    apply Z.lt_neq. eapply spread_distinct; eauto.
    exists (nr_of_transactions a), (nr_of_transactions b).
    repeat split; auto using in_map. }
  assert (spread_a : lo_a <> hi_a).
  { destruct Ha as [a [b [Hia [Hib Hab]]]].
    apply Z.lt_neq. eapply spread_distinct; eauto.
    exists (amount_spent a), (amount_spent b).
    repeat split; auto using in_map. }
  assert (fit_n : hi_n - lo_n <= int64_max).
  { destruct min_n as [Hlo _], max_n as [Hhi _].
    apply in_map_iff in Hlo, Hhi.
    destruct Hlo as [a [<- Hia]], Hhi as [b [<- Hib]]. apply Fn; assumption. }
  assert (fit_a : hi_a - lo_a <= int64_max).
  { destruct min_a as [Hlo _], max_a as [Hhi _].
    apply in_map_iff in Hlo, Hhi.
    destruct Hlo as [a [<- Hia]], Hhi as [b [<- Hib]]. apply Fa; assumption. }
  exists lo_n, hi_n, lo_a, hi_a.
  repeat (split; [assumption |]).
  split; [apply scorer_keeps_rows |].
  intros r Hr. apply scorer_rows in Hr. destruct Hr as [c [Hc ->]].
  rewrite (score_row_regular table lo_n hi_n lo_a hi_a) by assumption.
  simpl. eexists; eexists.
  split; [reflexivity |]. split; [reflexivity |].
  split; [apply ratio_formula |]. split; [apply ratio_formula |].
  reflexivity.
Qed.

(** C5, counterexample.  In the summary table of the overflowing sample
    both denominators are non-zero, before and after wrapping, yet the
    scaled amount of customer "D" is negative, about -1, and so is the
    score, about -50. *)
Lemma scaled_amount_below_zero :
  let table := best_churn overflowing in
  let d := mk_customer "D" (Some (mk_datetime 2019 5 1)) 1 1 5 in
  In (score_row table d) (scorer table) /\
  is_min 1 (map nr_of_transactions table) /\
  is_max 3 (map nr_of_transactions table) /\
  is_min (-9223372036854775708) (map amount_spent table) /\
  is_max 200 (map amount_spent table) /\
  3 - 1 <> 0 /\ 200 - (-9223372036854775708) <> 0 /\
  wrap64 (200 - (-9223372036854775708)) <> 0 /\
  exists q sc,
    scaled_amount (score_row table d) = Fin q /\ (q < - (99 # 100))%Q /\
    score (score_row table d) = Fin sc /\ (sc < - 49)%Q.
Proof.
  cbv zeta. rewrite overflowing_summary.
  split; [unfold scorer; simpl; tauto |].
  repeat (split; [extremum |]).
  repeat (split; [vm_compute; discriminate |]).
  eexists; eexists. repeat split; vm_compute; reflexivity.
Qed.

(** C5, as the code has it.  When both denominators max - min are
    non-zero and no larger than the largest 64-bit integer (the differences
    do not wrap), every scaled count and scaled amount lies in [0,1], being
    0 at the minimum of its feature and 1 at the maximum; every score lies
    in [0,100], is 0 for a customer at both minima and 100 for a customer
    at both maxima. *)
Theorem scaled_values_and_score_bounds
    (table : list customer) (lo_n hi_n lo_a hi_a : Z) (r : scored) :
  is_min lo_n (map nr_of_transactions table) ->
  is_max hi_n (map nr_of_transactions table) ->
  is_min lo_a (map amount_spent table) ->
  is_max hi_a (map amount_spent table) ->
  hi_n - lo_n <> 0 ->
  hi_a - lo_a <> 0 ->
  hi_n - lo_n <= int64_max ->
  hi_a - lo_a <= int64_max ->
  In r (scorer table) ->
  exists st sa sc : Q,
    scaled_tran r = Fin st /\ scaled_amount r = Fin sa /\ score r = Fin sc /\
    (0 <= st <= 1)%Q /\ (0 <= sa <= 1)%Q /\ (0 <= sc <= 100)%Q /\
    (nr_of_transactions (summary r) = lo_n -> (st == 0)%Q) /\
    (nr_of_transactions (summary r) = hi_n -> (st == 1)%Q) /\
    (amount_spent (summary r) = lo_a -> (sa == 0)%Q) /\
    (amount_spent (summary r) = hi_a -> (sa == 1)%Q) /\
    (nr_of_transactions (summary r) = lo_n ->
     amount_spent (summary r) = lo_a -> (sc == 0)%Q) /\
    (nr_of_transactions (summary r) = hi_n ->
     amount_spent (summary r) = hi_a -> (sc == 100)%Q).
Proof.
  intros min_n max_n min_a max_a Hdn Hda fit_n fit_a Hr.
  assert (spread_n : lo_n <> hi_n) by lia.
  assert (spread_a : lo_a <> hi_a) by lia.
  apply scorer_rows in Hr. destruct Hr as [c [Hc ->]].
  rewrite (score_row_regular table lo_n hi_n lo_a hi_a) by assumption.
  simpl.
  pose proof (spread_n_pos _ _ _ min_n max_n spread_n) as Hn.
  pose proof (spread_a_pos _ _ _ min_a max_a spread_a) as Ha.
  pose proof (ratio_bounds _ _ _ (count_in_range _ _ _ min_n max_n c Hc) Hn)
    as Bn.
  pose proof (ratio_bounds _ _ _ (amount_in_range _ _ _ min_a max_a c Hc) Ha)
    as Ba.
  set (st := (inject_Z (nr_of_transactions c - lo_n)
              / inject_Z (hi_n - lo_n))%Q) in *.
  set (sa := (inject_Z (amount_spent c - lo_a)
              / inject_Z (hi_a - lo_a))%Q) in *.
  assert (E0n : nr_of_transactions c = lo_n -> (st == 0)%Q).
  { intros E. subst st. rewrite E. apply ratio_at_min, Hn. }
  assert (E1n : nr_of_transactions c = hi_n -> (st == 1)%Q).
  { intros E. subst st. rewrite E. apply ratio_at_max, Hn. }
  assert (E0a : amount_spent c = lo_a -> (sa == 0)%Q).
  { intros E. subst sa. rewrite E. apply ratio_at_min, Ha. }
  assert (E1a : amount_spent c = hi_a -> (sa == 1)%Q).
  { intros E. subst sa. rewrite E. apply ratio_at_max, Ha. }
  exists st, sa, (100 * ((1 # 2) * st + (1 # 2) * sa))%Q.
  repeat (split; [first [reflexivity | assumption | lra] |]).
  split.
  - intros En Ea. rewrite (E0n En), (E0a Ea). reflexivity.
  - intros En Ea. rewrite (E1n En), (E1a Ea). reflexivity.
Qed.

(** C10, counterexample.  In the summary table of the overflowing sample
    each feature has distinct minimum and maximum; customer "A" has as many
    transactions as customer "C" and a smaller amount (-2^63 + 100 against
    5), yet the score of "A", 50, is above the score of "C", which is
    below 1. *)
Lemma score_not_monotone_when_wrapping :
  let table := best_churn overflowing in
  let a := mk_customer "A" (Some (mk_datetime 2019 2 2)) 1 3
                       (-9223372036854775708) in
  let c := mk_customer "C" (Some (mk_datetime 2019 4 3)) 1 3 5 in
  In (score_row table a) (scorer table) /\
  In (score_row table c) (scorer table) /\
  is_min 1 (map nr_of_transactions table) /\
  is_max 3 (map nr_of_transactions table) /\
  is_min (-9223372036854775708) (map amount_spent table) /\
  is_max 200 (map amount_spent table) /\
  nr_of_transactions a <= nr_of_transactions c /\
  amount_spent a <= amount_spent c /\
  is_fin (score (score_row table a)) 50 /\
  (exists q, score (score_row table c) = Fin q /\ (q < 1)%Q) /\
  ~ fle (score (score_row table a)) (score (score_row table c)).
Proof.
  cbv zeta. rewrite overflowing_summary.
  split; [unfold scorer; simpl; tauto |].
  split; [unfold scorer; simpl; tauto |].
  repeat (split; [extremum |]).
  split; [simpl; lia |]. split; [simpl; lia |].
  split; [vm_compute; reflexivity |].
  split; [eexists; split; vm_compute; reflexivity |].
  vm_compute. intros H. apply H. reflexivity.
Qed.

(** C10, as the code has it.  When each feature has distinct minimum and
    maximum no further apart than the largest 64-bit integer (the
    differences do not wrap), the score is monotone: a customer with no
    more transactions and no larger amount than another has a score that is
    no larger. *)
Theorem score_monotone
    (table : list customer) (lo_n hi_n lo_a hi_a : Z) (a b : scored) :
  is_min lo_n (map nr_of_transactions table) ->
  is_max hi_n (map nr_of_transactions table) ->
  is_min lo_a (map amount_spent table) ->
  is_max hi_a (map amount_spent table) ->
  lo_n <> hi_n ->
  lo_a <> hi_a ->
  hi_n - lo_n <= int64_max ->
  hi_a - lo_a <= int64_max ->
  In a (scorer table) ->
  In b (scorer table) ->
  nr_of_transactions (summary a) <= nr_of_transactions (summary b) ->
  amount_spent (summary a) <= amount_spent (summary b) ->
  fle (score a) (score b).
Proof.
  intros min_n max_n min_a max_a spread_n spread_a fit_n fit_a Ha Hb Hn Hm.
  apply scorer_rows in Ha. destruct Ha as [ca [Hca ->]].
  apply scorer_rows in Hb. destruct Hb as [cb [Hcb ->]].
  rewrite !(score_row_regular table lo_n hi_n lo_a hi_a) by assumption.
  simpl in *.
  pose proof (ratio_monotone _ _ lo_n hi_n
                (spread_n_pos _ _ _ min_n max_n spread_n) Hn).
  pose proof (ratio_monotone _ _ lo_a hi_a
                (spread_a_pos _ _ _ min_a max_a spread_a) Hm).
  lra.
Qed.

(** ** Degenerate features *)

(** C6, counterexample.  With two customers of equal transaction count the
    scorer raises nothing: it returns both rows, the scaled count and the
    score of each being NaN; likewise for two customers of equal amount. *)
Lemma tied_feature_scores_nan :
  map summary (scorer tied_counts) = tied_counts /\
  map scaled_tran (scorer tied_counts) = [NaN; NaN] /\
  map score (scorer tied_counts) = [NaN; NaN] /\
  map summary (scorer tied_amounts) = tied_amounts /\
  map scaled_amount (scorer tied_amounts) = [NaN; NaN] /\
  map score (scorer tied_amounts) = [NaN; NaN].
Proof. repeat split; reflexivity. Qed.

(** C6, as the code has it.  The scorer has no error outcome.  When all
    customers have the same transaction count, every row is kept and gets
    the scaled count NaN (0/0) and the score NaN; when all have the same
    amount, every row gets the scaled amount NaN and the score NaN. *)
Theorem degenerate_feature_is_nan (table : list customer) :
  map summary (scorer table) = table /\
  ((forall a b, In a table -> In b table ->
                nr_of_transactions a = nr_of_transactions b) ->
   forall r, In r (scorer table) -> scaled_tran r = NaN /\ score r = NaN) /\
  ((forall a b, In a table -> In b table ->
                amount_spent a = amount_spent b) ->
   forall r, In r (scorer table) -> scaled_amount r = NaN /\ score r = NaN).
Proof.
  split; [apply scorer_keeps_rows |].
  split; intros Hall r Hr; apply scorer_rows in Hr;
    destruct Hr as [c [Hc ->]]; unfold score_row; simpl.
  - rewrite min_max_scale_degenerate.
    + split; [reflexivity | apply weighted_score_nan_l].
    + apply in_map, Hc.
    + intros y z Hy Hz. apply in_map_iff in Hy, Hz.
      destruct Hy as [a [<- Ha]], Hz as [b [<- Hb]]. apply Hall; assumption.
  - rewrite (min_max_scale_degenerate _ (map amount_spent table)).
    + split; [reflexivity | apply weighted_score_nan_r].
    + apply in_map, Hc.
    + intros y z Hy Hz. apply in_map_iff in Hy, Hz.
      destruct Hy as [a [<- Ha]], Hz as [b [<- Hb]]. apply Hall; assumption.
Qed.

(** ** Empty input *)



(** ** Selection *)

Lemma head_length_min {A : Type} (n : nat) (table : list A) :
  head n table = firstn (Nat.min n (List.length table)) table.
Proof.
  unfold head. destruct (Nat.le_ge_cases n (List.length table)) as [H | H].
  - rewrite Nat.min_l by exact H. reflexivity.
  - rewrite Nat.min_r by exact H. rewrite !firstn_all2; auto.
Qed.

Lemma head_prefix {A : Type} (n : nat) (table : list A) :
  exists rest, table = head n table ++ rest.
Proof. exists (skipn n table). symmetry. apply firstn_skipn. Qed.

Lemma head_in {A : Type} (n : nat) (table : list A) (x : A) :
  In x (head n table) -> In x table.
Proof.
  intros H. rewrite <- (firstn_skipn n table). apply in_or_app; left; exact H.
Qed.

(** C3, counterexample.  With a budget of 20 and a coupon value of 20 the
    number of coupons is 1, yet on a table with two churned customers the
    selection returns both: it is not cut at floor(budget / coupon value). *)
Lemma selection_ignores_budget :
  let n := Z.to_nat (Qfloor (20 / 20)) in
  let table := scorer (best_churn two_churned) in
  n = 1%nat /\
  List.length (top_50_churned table) = 2%nat /\
  top_50_churned table
  <> firstn (Nat.min n (List.length
                          (filter (fun r => churned (summary r) =? 1) table)))
            (filter (fun r => churned (summary r) =? 1) table).
Proof.
  repeat split. vm_compute. discriminate.
Qed.

(** C3, as the code has it.  The selection is cut at the fixed number 50,
    which is floor(1000 / 20): it is exactly the first
    min(50, number of churned customers) rows among the rows of the table
    labelled churned, in the order of the table; it holds only churned
    customers of the table and at most 50 of them, holds every churned
    customer when there are no more than 50, and is not sorted by score
    (customers "A" and "B" of the sample are selected in this order with
    scores 0 and 100). *)
Theorem selection_is_first_fifty_churned (table : list scored) :
  Z.to_nat (Qfloor (1000 / 20)) = 50%nat /\
  top_50_churned table
  = firstn (Nat.min 50 (List.length
                          (filter (fun r => churned (summary r) =? 1) table)))
           (filter (fun r => churned (summary r) =? 1) table) /\
  (exists rest,
      filter (fun r => churned (summary r) =? 1) table
      = top_50_churned table ++ rest) /\
  (forall r, In r (top_50_churned table) ->
             In r table /\ churned (summary r) = 1) /\
  (Z.of_nat (List.length (filter (fun r => churned (summary r) =? 1) table))
   <= 50 ->
   forall r, In r table -> churned (summary r) = 1 ->
             In r (top_50_churned table)) /\
  (List.length (top_50_churned table) <= 50)%nat /\
  map (fun r => cust_id (summary r)) (pipeline two_churned) = ["A"; "B"] /\
  Forall2 is_fin (map score (pipeline two_churned)) [0%Q; 100%Q].
Proof.
  unfold top_50_churned, loc_churned.
  split; [reflexivity |].
  split; [apply head_length_min |].
  split; [apply head_prefix |].
  split; [| split; [| split; [apply firstn_le_length |]]].
  - intros r Hr. apply head_in in Hr.
    apply filter_In in Hr. destruct Hr as [Hin Hc].
    split; [exact Hin | apply Z.eqb_eq, Hc].
  - intros Hlen r Hr Hc. unfold head. rewrite firstn_all2 by lia.
    apply filter_In. split; [exact Hr | apply Z.eqb_eq, Hc].
  - split; [reflexivity |].
    repeat constructor; vm_compute; reflexivity.
Qed.

(** ** Coupon *)



(** ** The five-customer scenario *)

(** C9, counterexample.  In the population of the five listed customers
    the customer with 13 transactions and amount 857 has the score 0, which
    is not within 0.01 of 25.57. *)
Lemma five_customer_minimum_scores_zero :
  In fm1116 first_five /\
  nr_of_transactions fm1116 = 13 /\ amount_spent fm1116 = 857 /\
  is_fin (score (score_row first_five fm1116)) 0 /\
  ~ (exists q, score (score_row first_five fm1116) = Fin q /\
               (2556 # 100 <= q <= 2558 # 100)%Q).
Proof.
  split; [simpl; tauto |].
  split; [reflexivity |]. split; [reflexivity |].
  split; [vm_compute; reflexivity |].
  intros [q [Hq [Hlo _]]]. vm_compute in Hq. injection Hq as <-.
  vm_compute in Hlo. apply Hlo. reflexivity.
Qed.

(** C9, as the code has it.  For the population of exactly five customers
    with counts 15, 20, 19, 22, 13 and amounts 1012, 1490, 1432, 1659, 857
    the scaled count is 0 for the count 13 and 1 for the count 22, and the
    customer with count 13 and amount 857, who attains both minima, has the
    score 0; the other scaled values and scores are as listed. *)
Theorem five_customer_scenario :
  map (fun r => nr_of_transactions (summary r)) (scorer first_five)
  = [15; 20; 19; 22; 13] /\
  map (fun r => amount_spent (summary r)) (scorer first_five)
  = [1012; 1490; 1432; 1659; 857] /\
  Forall2 is_fin (map scaled_tran (scorer first_five))
          [2 # 9; 7 # 9; 2 # 3; 1; 0]%Q /\
  Forall2 is_fin (map scaled_amount (scorer first_five))
          [155 # 802; 633 # 802; 575 # 802; 1; 0]%Q /\
  Forall2 is_fin (map score (scorer first_five))
          [100 * ((1 # 2) * (2 # 9) + (1 # 2) * (155 # 802));
           100 * ((1 # 2) * (7 # 9) + (1 # 2) * (633 # 802));
           100 * ((1 # 2) * (2 # 3) + (1 # 2) * (575 # 802));
           100;
           0]%Q.
Proof.
  split; [reflexivity |]. split; [reflexivity |].
  repeat split; repeat constructor; vm_compute; reflexivity.
Qed.

(** Within a population whose counts range over 4..39 and whose amounts
    range over 149..2933, as in the table printed by the notebook, the
    customer with 13 transactions and amount 857 scores about 25.57. *)
Lemma reference_population_score (table : list customer) (r : scored) :
  is_min 4 (map nr_of_transactions table) ->
  is_max 39 (map nr_of_transactions table) ->
  is_min 149 (map amount_spent table) ->
  is_max 2933 (map amount_spent table) ->
  In r (scorer table) ->
  nr_of_transactions (summary r) = 13 ->
  amount_spent (summary r) = 857 ->
  exists q, score r = Fin q /\ (25572 # 1000 <= q <= 25573 # 1000)%Q.
Proof.
  intros min_n max_n min_a max_a Hr Hn Ha.
  apply scorer_rows in Hr. destruct Hr as [c [Hc ->]].
  rewrite (score_row_regular table 4 39 149 2933)
    by (assumption || (unfold int64_max; lia)).
  simpl in *. rewrite Hn, Ha. eexists. split; [reflexivity |].
  vm_compute. split; discriminate.
Qed.

(** ** Instances *)


(** The scaling formulas on the five printed rows. *)
Lemma scorer_min_max_formula_witness :
  first_five <> [] /\
  exists lo_n hi_n lo_a hi_a : Z,
    is_min lo_n (map nr_of_transactions first_five) /\
    is_max hi_n (map nr_of_transactions first_five) /\
    is_min lo_a (map amount_spent first_five) /\
    is_max hi_a (map amount_spent first_five) /\
    map summary (scorer first_five) = first_five /\
    forall r, In r (scorer first_five) ->
      exists st sa : Q,
        scaled_tran r = Fin st /\
        scaled_amount r = Fin sa /\
        (st == (inject_Z (nr_of_transactions (summary r)) - inject_Z lo_n)
               / (inject_Z hi_n - inject_Z lo_n))%Q /\
        (sa == (inject_Z (amount_spent (summary r)) - inject_Z lo_a)
               / (inject_Z hi_a - inject_Z lo_a))%Q /\
        is_fin (score r) (100 * ((1 # 2) * st + (1 # 2) * sa)).
Proof.
  split; [discriminate |].
  apply (scorer_min_max_formula first_five).
  - discriminate.
  - exists fm1112, fm1113. simpl. repeat split; try tauto. lia.
  - exists fm1112, fm1113. simpl. repeat split; try tauto. lia.
  - unfold int64_max. simpl. intros a b Ha Hb.
    intuition (subst; simpl; lia).
  - unfold int64_max. simpl. intros a b Ha Hb.
    intuition (subst; simpl; lia).
Defined.

(** The bounds on the five printed rows, at the customer who attains both
    minima. *)
Lemma scaled_values_and_score_bounds_witness :
  is_min 13 (map nr_of_transactions first_five) /\
  is_max 22 (map nr_of_transactions first_five) /\
  is_min 857 (map amount_spent first_five) /\
  is_max 1659 (map amount_spent first_five) /\
  22 - 13 <= int64_max /\ 1659 - 857 <= int64_max /\
  In (score_row first_five fm1116) (scorer first_five) /\
  exists st sa sc : Q,
    scaled_tran (score_row first_five fm1116) = Fin st /\
    scaled_amount (score_row first_five fm1116) = Fin sa /\
    score (score_row first_five fm1116) = Fin sc /\
    (st == 0)%Q /\ (sa == 0)%Q /\ (sc == 0)%Q.
Proof.
  assert (H1 : is_min 13 (map nr_of_transactions first_five)) by extremum.
  assert (H2 : is_max 22 (map nr_of_transactions first_five)) by extremum.
  assert (H3 : is_min 857 (map amount_spent first_five)) by extremum.
  assert (H4 : is_max 1659 (map amount_spent first_five)) by extremum.
  assert (F1 : 22 - 13 <= int64_max) by (unfold int64_max; lia).
  assert (F2 : 1659 - 857 <= int64_max) by (unfold int64_max; lia).
  assert (H5 : In (score_row first_five fm1116) (scorer first_five))
    by (unfold scorer; simpl; tauto).
  repeat (split; [assumption |]).
  destruct (scaled_values_and_score_bounds
              first_five 13 22 857 1659 (score_row first_five fm1116)
              H1 H2 H3 H4 ltac:(lia) ltac:(lia) F1 F2 H5)
    as [st [sa [sc [E1 [E2 [E3 [_ [_ [_ [Z1 [_ [Z2 [_ [Z3 _]]]]]]]]]]]]]].
  exists st, sa, sc.
  repeat (split; [assumption |]).
  split; [apply Z1; reflexivity |].
  split; [apply Z2; reflexivity | apply Z3; reflexivity].
Defined.

(** Monotonicity on the five printed rows, between FM1116 and FM1112. *)
Lemma score_monotone_witness :
  nr_of_transactions fm1116 <= nr_of_transactions fm1112 /\
  amount_spent fm1116 <= amount_spent fm1112 /\
  fle (score (score_row first_five fm1116))
      (score (score_row first_five fm1112)).
Proof.
  split; [simpl; lia |]. split; [simpl; lia |].
  apply (score_monotone first_five 13 22 857 1659).
  - extremum.
  - extremum.
  - extremum.
  - extremum.
  - lia.
  - lia.
  - unfold int64_max; lia.
  - unfold int64_max; lia.
  - unfold scorer; simpl; tauto.
  - unfold scorer; simpl; tauto.
  - simpl; lia.
  - simpl; lia.
Defined.

(** ** The printed figures, on binary64 numbers *)

Module Binary64Facts.
Import PrimFloat.

(** The coupon and the number of customers printed by the notebook for
    125000 transactions of total amount 8123989. *)
Lemma printed_coupon :
  eqb (Binary64.coupon 8123989 125000) 19.4975736 = true /\
  eqb (Binary64.nr_of_customers 8123989 125000) 51.28843314123969 = true.
Proof. split; vm_compute; reflexivity. Qed.

(** The score 25.572660 printed for the customer with 13 transactions and
    amount 857, within counts 4..39 and amounts 149..2933. *)
Lemma printed_score :
  let s := Binary64.score (Binary64.scale 13 4 39)
                          (Binary64.scale 857 149 2933) in
  ltb 25.5726595 s = true /\ ltb s 25.5726605 = true.
Proof. split; vm_compute; reflexivity. Qed.

(** Within the five listed customers alone the same customer scores 0 and
    the customer at both maxima scores 100. *)
Lemma five_customer_extremes :
  eqb (Binary64.score (Binary64.scale 13 13 22)
                      (Binary64.scale 857 857 1659)) 0 = true /\
  eqb (Binary64.score (Binary64.scale 22 13 22)
                      (Binary64.scale 1659 857 1659)) 100 = true.
Proof. split; vm_compute; reflexivity. Qed.

(** A feature on which all customers agree scales to NaN, and so does the
    score. *)
Lemma tied_feature_nan :
  is_nan (Binary64.scale 3 3 3) = true /\
  is_nan (Binary64.score (Binary64.scale 3 3 3) (Binary64.scale 10 10 20))
  = true.
Proof. split; vm_compute; reflexivity. Qed.

(** The wrapped differences of the overflowing sample, as float64
    numbers: the scaled amount of an amount of 5 is -1 and the score with
    a scaled count of 0 is -50. *)
Lemma wrapped_scale :
  eqb (9223372036854775713 / (-9223372036854775608)) (-1) = true /\
  eqb (Binary64.score 0 (9223372036854775713 / (-9223372036854775608)))
      (-50) = true.
Proof. split; vm_compute; reflexivity. Qed.

End Binary64Facts.

(** * Further properties of the notebook *)

(** ** The index of the summary table *)

Lemma best_churn_ids (data : list transaction) :
  map cust_id (best_churn data) = group_keys data.
Proof.
  rewrite best_churn_keys, map_map. simpl. apply map_id.
Qed.

(** The index of [best_churn] is strictly increasing in the order of the
    customer ids, so no id occurs twice, and it holds exactly the ids of
    the transaction table. *)
Theorem summary_index_sorted (data : list transaction) :
  StronglySorted key_lt (map cust_id (best_churn data)) /\
  NoDup (map cust_id (best_churn data)) /\
  (forall c, In c (map cust_id (best_churn data))
             <-> In c (map customer_id data)).
Proof.
  rewrite best_churn_ids. split; [apply group_keys_sorted |].
  split; [apply group_keys_nodup |]. intros c. apply group_keys_in.
Qed.

Lemma best_churn_row (data : list transaction) (s : customer) :
  In s (best_churn data) ->
  In (cust_id s) (map customer_id data) /\
  s = summarize (dtype_of (map tran_amount data))
                (cust_id s, group_rows (cust_id s) data).
Proof.
  rewrite best_churn_keys. intros H. apply in_map_iff in H.
  destruct H as [k [<- Hk]]. simpl. split; [| reflexivity].
  apply group_keys_in, Hk.
Qed.

(** Every row of [best_churn] stands for a customer of the transaction
    table with at least one transaction: its count is at least 1 and is
    the number of that customer's transactions; its amount is the sum of
    their amounts up to a multiple of 2^64, and the sum itself whenever
    the sum is a 64-bit integer. *)
Theorem summary_rows_nonempty (data : list transaction) (s : customer) :
  In s (best_churn data) ->
  In (cust_id s) (map customer_id data) /\
  1 <= nr_of_transactions s /\
  nr_of_transactions s = count_for (cust_id s) data /\
  (amount_spent s - total_for (cust_id s) data) mod 18446744073709551616
  = 0 /\
  (fits_int64 (total_for (cust_id s) data) = true ->
   amount_spent s = total_for (cust_id s) data).
Proof.
  intros Hs. destruct (best_churn_row data s Hs) as [Hin E].
  split; [exact Hin |].
  destruct (group_rows_latest _ _ Hin) as [d [Hd Hl]].
  rewrite E. simpl. rewrite <- !group_rows_total.
  split; [| split; [apply group_rows_count |
                    split; [apply series_sum_congruent |
                            apply series_sum_exact]]].
  destruct (group_rows (cust_id s) data); simpl in *; [discriminate | lia].
Qed.

(** ** Grouping loses and duplicates nothing *)

Lemma filter_disjoint_union {A : Type} (p q : A -> bool) (l : list A) :
  (forall x, In x l -> p x = true -> q x = false) ->
  Permutation (filter p l ++ filter q l) (filter (fun x => p x || q x) l).
Proof.
  induction l as [| x l IH]; intros Hd; simpl; [constructor |].
  assert (IH' : Permutation (filter p l ++ filter q l)
                            (filter (fun x => p x || q x) l))
    by (apply IH; intros y Hy; apply Hd; simpl; auto).
  destruct (p x) eqn:Hp; simpl.
  - rewrite (Hd x (or_introl eq_refl) Hp). constructor. exact IH'.
  - destruct (q x); simpl; [| exact IH'].
    apply Permutation_sym, Permutation_cons_app, Permutation_sym, IH'.
Qed.

Lemma groups_cover (ks : list string) (data : list transaction) :
  NoDup ks ->
  Permutation
    (List.concat (map (fun k => group_rows k data) ks))
    (filter (fun t => existsb (String.eqb (customer_id t)) ks) data).
Proof.
  induction 1 as [| k ks Hk Hnd IH]; simpl.
  - rewrite filter_false. constructor.
  - etransitivity; [apply Permutation_app_head, IH |].
    unfold group_rows. apply filter_disjoint_union.
    intros t _ Ht. apply String.eqb_eq in Ht.
    destruct (existsb (String.eqb (customer_id t)) ks) eqn:E; auto.
    apply existsb_exists in E. destruct E as [k' [Hin Hk']].
    apply String.eqb_eq in Hk'. congruence.
Qed.

Lemma groups_partition (data : list transaction) :
  Permutation (List.concat (map snd (group_by_customer data))) data.
Proof.
  unfold group_by_customer. rewrite map_map. simpl.
  etransitivity; [apply groups_cover, group_keys_nodup |].
  rewrite forallb_filter_id; [reflexivity |].
  apply forallb_forall. intros t Ht. apply existsb_exists.
  exists (customer_id t). split; [| apply String.eqb_refl].
  apply group_keys_in, in_map, Ht.
Qed.

(** The groups of [groupby] partition the transaction table: put end to
    end they are a rearrangement of it, every group is non-empty, and all
    transactions of a group carry the key of the group. *)
Theorem groupby_partitions_transactions (data : list transaction) :
  Permutation (List.concat (map snd (group_by_customer data))) data /\
  (forall k g, In (k, g) (group_by_customer data) ->
               g <> [] /\ forall t, In t g -> customer_id t = k).
Proof.
  split; [apply groups_partition |].
  intros k g H. unfold group_by_customer in H. apply in_map_iff in H.
  destruct H as [k' [E Hk]]. injection E as <- <-. split.
  - apply group_keys_in, in_map_iff in Hk. destruct Hk as [t [Hid Ht]].
    assert (Hg : In t (group_rows k' data)) by (apply group_rows_in; auto).
    intros E. rewrite E in Hg. destruct Hg.
  - intros t Ht. apply group_rows_in in Ht. tauto.
Qed.

(** ** Totals are preserved *)

Lemma exact_sum_app (l l' : list Z) :
  exact_sum (l ++ l') = exact_sum l + exact_sum l'.
Proof.
  induction l as [| x l IH]; simpl; [reflexivity |].
  rewrite !exact_sum_cons, IH. lia.
Qed.

Lemma exact_sum_permutation (l l' : list Z) :
  Permutation l l' -> exact_sum l = exact_sum l'.
Proof.
  induction 1; rewrite ?exact_sum_cons; try reflexivity; lia.
Qed.

Lemma series_sum_permutation (t : dtype) (l l' : list Z) :
  Permutation l l' -> series_sum t l = series_sum t l'.
Proof.
  intros P. destruct t.
  - rewrite !series_sum_int64, (exact_sum_permutation _ _ P). reflexivity.
  - rewrite !series_sum_object. apply exact_sum_permutation, P.
Qed.

Lemma sum_of_group_sizes {A : Type} (gs : list (list A)) :
  exact_sum (map (fun g => Z.of_nat (List.length g)) gs)
  = Z.of_nat (List.length (List.concat gs)).
Proof.
  induction gs as [| g gs IH]; simpl; [reflexivity |].
  rewrite exact_sum_cons, IH, length_app. lia.
Qed.

Lemma sum_of_group_sums {A : Type} (f : A -> Z) (gs : list (list A)) :
  exact_sum (map (fun g => exact_sum (map f g)) gs)
  = exact_sum (map f (List.concat gs)).
Proof.
  induction gs as [| g gs IH]; simpl; [reflexivity |].
  rewrite exact_sum_cons, IH, map_app, exact_sum_app. reflexivity.
Qed.

Lemma sums_congruent {A : Type} (f g : A -> Z) (l : list A) :
  (forall x, In x l -> (f x - g x) mod 18446744073709551616 = 0) ->
  (exact_sum (map f l) - exact_sum (map g l)) mod 18446744073709551616 = 0.
Proof.
  induction l as [| x l IH]; intros H; simpl; [reflexivity |].
  rewrite !exact_sum_cons.
  assert (Hx : (f x - g x) mod 18446744073709551616 = 0)
    by (apply H; simpl; auto).
  assert (Hl : (exact_sum (map f l) - exact_sum (map g l))
               mod 18446744073709551616 = 0)
    by (apply IH; intros y Hy; apply H; simpl; auto).
  apply Z.mod_divide in Hx, Hl; try lia.
  apply Z.mod_divide; [lia |].
  replace (f x + exact_sum (map f l) - (g x + exact_sum (map g l)))
    with ((f x - g x) + (exact_sum (map f l) - exact_sum (map g l))) by lia.
  apply Z.divide_add_r; assumption.
Qed.

(** The aggregation keeps the totals.  The transaction counts of all
    customers add up to the number of transactions.  The amounts of all
    customers add up to the total amount of the transaction table up to a
    multiple of 2^64, and exactly when the sum of every customer's amounts
    is a 64-bit integer. *)
Theorem aggregation_preserves_totals (data : list transaction) :
  exact_sum (map nr_of_transactions (best_churn data))
  = Z.of_nat (List.length data) /\
  (exact_sum (map amount_spent (best_churn data))
   - exact_sum (map tran_amount data)) mod 18446744073709551616 = 0 /\
  ((forall c, fits_int64 (total_for c data) = true) ->
   exact_sum (map amount_spent (best_churn data))
   = exact_sum (map tran_amount data)).
Proof.
  pose proof (groups_partition data) as P.
  assert (T : exact_sum (map (fun kg => exact_sum (map tran_amount (snd kg)))
                             (group_by_customer data))
              = exact_sum (map tran_amount data)).
  { rewrite <- (exact_sum_permutation _ _ (Permutation_map tran_amount P)).
    rewrite <- sum_of_group_sums, map_map. reflexivity. }
  unfold best_churn. rewrite !map_map. simpl. split; [| split].
  - rewrite <- (Permutation_length P), <- sum_of_group_sizes, map_map.
    reflexivity.
  - rewrite <- T. apply sums_congruent.
    intros kg _. apply series_sum_congruent.
  - intros Hfit. rewrite <- T. f_equal. apply map_ext_in.
    intros kg Hkg. apply series_sum_exact.
    unfold group_by_customer in Hkg. apply in_map_iff in Hkg.
    destruct Hkg as [k [<- _]]. simpl.
    rewrite group_rows_total. apply Hfit.
Qed.

(** ** The order of the transactions does not matter *)

Lemma datetime_le_antisym (a b : datetime) :
  datetime_le a b -> datetime_le b a -> a = b.
Proof.
  unfold datetime_le, datetime_lt. intros [H1 | H1] [H2 | H2]; auto.
  exfalso; lia.
Qed.

Lemma datetime_le_lt_trans (a b c : datetime) :
  datetime_le a b -> datetime_lt b c -> datetime_lt a c.
Proof.
  intros [H | ->]; auto. unfold datetime_lt in *. lia.
Qed.

Lemma series_max_date_permutation (l l' : list datetime) :
  Permutation l l' -> series_max_date l = series_max_date l'.
Proof.
  intros P.
  destruct (series_max_date l) as [d |] eqn:E,
           (series_max_date l') as [d' |] eqn:E'.
  - apply series_max_date_spec in E, E'.
    destruct E as [Hin Hub], E' as [Hin' Hub']. f_equal.
    apply datetime_le_antisym.
    + apply Hub'. eapply Permutation_in; eassumption.
    + apply Hub. eapply Permutation_in; [apply Permutation_sym |]; eassumption.
  - destruct l' as [| x l']; [| discriminate].
    apply Permutation_sym, Permutation_nil in P. subst. discriminate.
  - destruct l as [| x l]; [| discriminate].
    apply Permutation_nil in P. subst. discriminate.
  - reflexivity.
Qed.

Lemma filter_permutation {A : Type} (p : A -> bool) (l l' : list A) :
  Permutation l l' -> Permutation (filter p l) (filter p l').
Proof.
  induction 1 as [| x l l' P IH | x y l | l l' l'' P1 IH1 P2 IH2]; simpl.
  - constructor.
  - destruct (p x); [constructor |]; exact IH.
  - destruct (p x), (p y); try reflexivity. constructor.
  - etransitivity; eassumption.
Qed.

Lemma sorted_keys_unique (l1 l2 : list string) :
  StronglySorted key_lt l1 -> StronglySorted key_lt l2 ->
  (forall x, In x l1 <-> In x l2) -> l1 = l2.
Proof.
  intros S1. revert l2.
  induction S1 as [| a l1 S1 IH F1]; intros l2 S2 Hiff.
  - destruct l2 as [| b l2]; [reflexivity |].
    destruct (proj2 (Hiff b) (or_introl eq_refl)).
  - destruct S2 as [| b l2 S2 F2].
    + destruct (proj1 (Hiff a) (or_introl eq_refl)).
    + rewrite Forall_forall in F1, F2.
      assert (E : a = b).
      { destruct (proj1 (Hiff a) (or_introl eq_refl)) as [E | Ha]; auto.
        destruct (proj2 (Hiff b) (or_introl eq_refl)) as [E | Hb]; auto.
        exfalso. apply (key_lt_irrefl a).
        eapply key_lt_trans; [apply F1, Hb | apply F2, Ha]. }
      subst b. f_equal. apply IH; [exact S2 |].
      intros x. split; intros Hx.
      * destruct (proj1 (Hiff x) (or_intror Hx)) as [E | H]; auto.
        subst x. destruct (key_lt_irrefl a (F1 a Hx)).
      * destruct (proj2 (Hiff x) (or_intror Hx)) as [E | H]; auto.
        subst x. destruct (key_lt_irrefl a (F2 a Hx)).
Qed.

(** The summary table does not depend on the order in which the
    transactions are listed. *)
Theorem aggregation_order_independent (data data' : list transaction) :
  Permutation data data' -> best_churn data = best_churn data'.
Proof.
  intros P. rewrite !best_churn_keys.
  assert (K : group_keys data = group_keys data').
  { apply sorted_keys_unique; try apply group_keys_sorted.
    intros x. rewrite !group_keys_in. split; apply Permutation_in.
    - apply Permutation_map, P.
    - apply Permutation_map, Permutation_sym, P. }
  assert (T : dtype_of (map tran_amount data')
              = dtype_of (map tran_amount data)).
  { apply dtype_of_same_entries. intros x. split; apply Permutation_in.
    - apply Permutation_map, Permutation_sym, P.
    - apply Permutation_map, P. }
  rewrite K, T. apply map_ext. intros k.
  pose proof (filter_permutation
                (fun t => String.eqb (customer_id t) k) _ _ P) as G.
  fold (group_rows k data) (group_rows k data') in G.
  unfold summarize. simpl.
  rewrite (series_max_date_permutation _ _ (Permutation_map trans_date G)).
  rewrite (Permutation_length G).
  rewrite (series_sum_permutation _ _ _ (Permutation_map tran_amount G)).
  reflexivity.
Qed.

(** ** Churn in terms of the transactions *)

Lemma label_one_iff (d : datetime) :
  churned_label (Some d) = 1 <-> datetime_lt d cutoff_day.
Proof.
  simpl. rewrite <- datetime_ltb_spec.
  destruct (datetime_ltb d cutoff_day); split; intros; try reflexivity;
    discriminate.
Qed.

Lemma latest_before_iff
    (c : string) (data : list transaction) (d cut : datetime) :
  is_latest_for c data d ->
  (datetime_lt d cut <->
   forall t, In t data -> customer_id t = c -> datetime_lt (trans_date t) cut).
Proof.
  intros [[u [Hu [Hc Hd]]] Hub]. split.
  - intros Hlt t Ht Hid. eapply datetime_le_lt_trans; [apply Hub | exact Hlt];
      assumption.
  - intros Hall. rewrite <- Hd. apply Hall; assumption.
Qed.

(** A customer is labelled churned exactly when every one of that
    customer's transactions is dated strictly before the cutoff day. *)
Theorem churned_iff_all_transactions_before_cutoff
    (data : list transaction) (s : customer) :
  In s (best_churn data) ->
  (churned s = 1 <->
   forall t, In t data -> customer_id t = cust_id s ->
             datetime_lt (trans_date t) cutoff_day).
Proof.
  intros Hs. destruct (best_churn_row data s Hs) as [Hin E].
  destruct (group_rows_latest _ _ Hin) as [d [Hd Hl]].
  rewrite <- (latest_before_iff _ _ d cutoff_day Hl), <- label_one_iff.
  rewrite E at 1. simpl. rewrite Hd. reflexivity.
Qed.

(** The label is monotone in time: a customer whose last transaction is no
    later than that of a churned customer is churned too, and one whose last
    transaction is no earlier than that of an active customer is active. *)
Theorem churn_label_monotone (d1 d2 : datetime) :
  datetime_le d1 d2 ->
  (churned_label (Some d2) = 1 -> churned_label (Some d1) = 1) /\
  (churned_label (Some d1) = 0 -> churned_label (Some d2) = 0).
Proof.
  intros Hle.
  assert (H : churned_label (Some d2) = 1 -> churned_label (Some d1) = 1).
  { rewrite !label_one_iff. apply datetime_le_lt_trans, Hle. }
  split; [exact H |].
  intros H0. simpl in *.
  destruct (datetime_ltb d2 cutoff_day); [| reflexivity].
  rewrite H in H0 by reflexivity. discriminate.
Qed.

(** ** When the score is a number *)

Lemma tied_iff_no_spread (col : list Z) (lo hi : Z) :
  is_min lo col -> is_max hi col ->
  (lo = hi <-> forall y z, In y col -> In z col -> y = z).
Proof.
  intros [Hlo Lb] [Hhi Ub]. split.
  - intros E y z Hy Hz.
    pose proof (Lb y Hy). pose proof (Ub y Hy).
    pose proof (Lb z Hz). pose proof (Ub z Hz). lia.
  - intros Hall. apply Hall; assumption.
Qed.

Lemma column_tied (f : customer -> Z) (table : list customer) :
  (forall a b, In a table -> In b table -> f a = f b) <->
  (forall y z, In y (map f table) -> In z (map f table) -> y = z).
Proof.
  split.
  - intros H y z Hy Hz. apply in_map_iff in Hy, Hz.
    destruct Hy as [a [<- Ha]], Hz as [b [<- Hb]]. apply H; assumption.
  - intros H a b Ha Hb. apply H; apply in_map; assumption.
Qed.

(** The score of a row is NaN exactly when all customers have the same
    transaction count or all have the same amount; otherwise it is a finite
    number.  It is never infinite. *)
Theorem score_nan_iff_tied_feature (table : list customer) (r : scored) :
  In r (scorer table) ->
  (score r = NaN <->
   (forall a b, In a table -> In b table ->
                nr_of_transactions a = nr_of_transactions b) \/
   (forall a b, In a table -> In b table ->
                amount_spent a = amount_spent b)) /\
  (score r = NaN \/ exists q, score r = Fin q).
Proof.
  intros Hr. apply scorer_rows in Hr. destruct Hr as [c [Hc ->]].
  assert (Hcol : forall f : customer -> Z, map f table <> []).
  { intros f E. apply map_eq_nil in E. subst. destruct Hc. }
  destruct (series_min_exists _ (Hcol nr_of_transactions)) as [lo_n min_n].
  destruct (series_max_exists _ (Hcol nr_of_transactions)) as [hi_n max_n].
  destruct (series_min_exists _ (Hcol amount_spent)) as [lo_a min_a].
  destruct (series_max_exists _ (Hcol amount_spent)) as [hi_a max_a].
  pose proof (tied_iff_no_spread _ _ _ min_n max_n) as Tn.
  pose proof (tied_iff_no_spread _ _ _ min_a max_a) as Ta.
  rewrite <- column_tied in Tn, Ta. rewrite <- Tn, <- Ta.
  destruct (Z.eq_dec lo_n hi_n) as [En | En].
  - assert (E : score (score_row table c) = NaN).
    { unfold score_row; simpl. rewrite min_max_scale_degenerate.
      - apply weighted_score_nan_l.
      - apply in_map, Hc.
      - apply column_tied, Tn, En. }
    rewrite E. tauto.
  - destruct (Z.eq_dec lo_a hi_a) as [Ea | Ea].
    + assert (E : score (score_row table c) = NaN).
      { unfold score_row; simpl.
        rewrite (min_max_scale_degenerate _ (map amount_spent table)).
        - apply weighted_score_nan_r.
        - apply in_map, Hc.
        - apply column_tied, Ta, Ea. }
      rewrite E. tauto.
    + destruct (min_max_scale_finite _ lo_n hi_n (nr_of_transactions c)
                  min_n max_n En) as [qn Qn].
      destruct (min_max_scale_finite _ lo_a hi_a (amount_spent c)
                  min_a max_a Ea) as [qa Qa].
      assert (E : score (score_row table c)
                  = Fin (100 * ((1 # 2) * qn + (1 # 2) * qa))).
      { unfold score_row; simpl. rewrite Qn, Qa. reflexivity. }
      rewrite E. split; [| right; eauto].
      split; [discriminate | tauto].
Qed.

(** ** Change of unit *)

Lemma affine_min (col : list Z) (lo a b : Z) :
  0 < a -> is_min lo col -> is_min (a * lo + b) (map (fun y => a * y + b) col).
Proof.
  intros Ha [Hin Lb]. split.
  - apply (in_map (fun y => a * y + b)), Hin.
  - intros x Hx. apply in_map_iff in Hx. destruct Hx as [y [<- Hy]].
    pose proof (Lb y Hy). nia.
Qed.

Lemma affine_max (col : list Z) (hi a b : Z) :
  0 < a -> is_max hi col -> is_max (a * hi + b) (map (fun y => a * y + b) col).
Proof.
  intros Ha [Hin Ub]. split.
  - apply (in_map (fun y => a * y + b)), Hin.
  - intros x Hx. apply in_map_iff in Hx. destruct Hx as [y [<- Hy]].
    pose proof (Ub y Hy). nia.
Qed.

(** Min-max scaling does not depend on the unit or the origin of the
    feature: replacing every value [y] of a column by [a * y + b] with
    [a > 0] leaves every scaled value as it was (NaN stays NaN), as long as
    the old and the new values are 64-bit integers and the new values lie
    no further apart than 2^53, so that their differences neither wrap nor
    lose digits as float64 numbers. *)
Theorem min_max_scale_affine_invariant (col : list Z) (x a b : Z) :
  0 < a -> In x col ->
  (forall y, In y col ->
             fits_int64 y = true /\ fits_int64 (a * y + b) = true) ->
  (forall y z, In y col -> In z col -> a * (z - y) <= 9007199254740992) ->
  same_float
    (min_max_scale (dtype_of (map (fun y => a * y + b) col))
                   (series_min (map (fun y => a * y + b) col))
                   (series_max (map (fun y => a * y + b) col))
                   (a * x + b))
    (min_max_scale (dtype_of col) (series_min col) (series_max col) x).
Proof.
  intros Ha Hx _ Hfit.
  assert (Hne : col <> []) by (intros E; subst; destruct Hx).
  destruct (series_min_exists _ Hne) as [lo Hlo].
  destruct (series_max_exists _ Hne) as [hi Hhi].
  pose proof (spread_order _ _ _ Hlo Hhi) as Hord.
  assert (Hx' : In (a * x + b) (map (fun y => a * y + b) col))
    by (apply (in_map (fun y => a * y + b)), Hx).
  destruct (Z.eq_dec lo hi) as [E | E].
  - subst hi.
    assert (Hall : forall y z, In y col -> In z col -> y = z).
    { apply (tied_iff_no_spread _ _ _ Hlo Hhi). reflexivity. }
    rewrite (min_max_scale_degenerate _ col x Hx Hall).
    rewrite min_max_scale_degenerate; [exact I | exact Hx' |].
    intros y z Hy Hz. apply in_map_iff in Hy, Hz.
    destruct Hy as [y' [<- Hy]], Hz as [z' [<- Hz]].
    rewrite (Hall y' z' Hy Hz). reflexivity.
  - pose proof (Hfit lo hi (proj1 Hlo) (proj1 Hhi)) as F.
    rewrite (min_max_scale_regular col lo hi x)
      by (assumption || (unfold int64_max in *; nia)).
    rewrite (min_max_scale_regular _ (a * lo + b) (a * hi + b))
      by (first [ apply affine_min; assumption
                | apply affine_max; assumption
                | exact Hx'
                | unfold int64_max in *; nia ]).
    simpl. rewrite !ratio_as_fraction by nia.
    unfold Qeq; simpl. rewrite !Z2Pos.id by nia. ring.
Qed.

(** ** Dependence on the extremes *)

Lemma is_min_with_newcomer (m v : Z) (col col' : list Z) :
  (forall x, In x col' <-> x = v \/ In x col) -> m <= v ->
  is_min m col -> is_min m col'.
Proof.
  intros H Hv [Hin Lb]. split; [apply H; auto |].
  intros x Hx. apply H in Hx. destruct Hx as [-> | Hx]; auto.
Qed.

Lemma is_max_with_newcomer (m v : Z) (col col' : list Z) :
  (forall x, In x col' <-> x = v \/ In x col) -> v <= m ->
  is_max m col -> is_max m col'.
Proof.
  intros H Hv [Hin Ub]. split; [apply H; auto |].
  intros x Hx. apply H in Hx. destruct Hx as [-> | Hx]; auto.
Qed.

Lemma dtype_of_with_newcomer (lo hi v : Z) (col col' : list Z) :
  (forall x, In x col' <-> x = v \/ In x col) ->
  is_min lo col -> is_max hi col -> lo <= v <= hi ->
  dtype_of col' = dtype_of col.
Proof.
  intros H [Hlo _] [Hhi _] Hv. unfold dtype_of.
  destruct (forallb fits_int64 col) eqn:E, (forallb fits_int64 col') eqn:E';
    try reflexivity.
  - rewrite forallb_forall in E.
    assert (F : forallb fits_int64 col' = true).
    { apply forallb_forall. intros x Hx. apply H in Hx.
      destruct Hx as [-> | Hx]; [| apply E, Hx].
      apply fits_int64_iff.
      pose proof (proj1 (fits_int64_iff lo) (E lo Hlo)).
      pose proof (proj1 (fits_int64_iff hi) (E hi Hhi)). lia. }
    congruence.
  - rewrite forallb_forall in E'.
    assert (F : forallb fits_int64 col = true)
      by (apply forallb_forall; intros x Hx; apply E', H; auto).
    congruence.
Qed.

Lemma column_with_newcomer
    (f : customer -> Z) (table table' : list customer) (new : customer) :
  (forall c, In c table' <-> c = new \/ In c table) ->
  forall x, In x (map f table') <-> x = f new \/ In x (map f table).
Proof.
  intros H x. rewrite !in_map_iff. split.
  - intros [c [<- Hc]]. apply H in Hc. destruct Hc as [-> | Hc]; eauto.
  - intros [-> | [c [<- Hc]]].
    + exists new. split; [reflexivity | apply H; auto].
    + exists c. split; [reflexivity | apply H; auto].
Qed.

(** The scores depend on the other customers only through the extremes of
    the two features: when a customer whose count and amount lie within
    the present ranges joins the table, wherever the row is placed, the
    scaled values and the score of every customer stay as they were. *)
Theorem newcomer_within_range_keeps_scores
    (table table' : list customer) (new : customer)
    (lo_n hi_n lo_a hi_a : Z) (c : customer) :
  is_min lo_n (map nr_of_transactions table) ->
  is_max hi_n (map nr_of_transactions table) ->
  is_min lo_a (map amount_spent table) ->
  is_max hi_a (map amount_spent table) ->
  (forall x, In x table' <-> x = new \/ In x table) ->
  lo_n <= nr_of_transactions new <= hi_n ->
  lo_a <= amount_spent new <= hi_a ->
  score_row table' c = score_row table c.
Proof.
  intros min_n max_n min_a max_a Hnew Rn Ra.
  pose proof (column_with_newcomer nr_of_transactions _ _ _ Hnew) as Cn.
  pose proof (column_with_newcomer amount_spent _ _ _ Hnew) as Ca.
  unfold score_row.
  rewrite (dtype_of_with_newcomer lo_n hi_n _ _ _ Cn min_n max_n Rn).
  rewrite (dtype_of_with_newcomer lo_a hi_a _ _ _ Ca min_a max_a Ra).
  rewrite (series_min_is_min _ _ min_n), (series_max_is_max _ _ max_n).
  rewrite (series_min_is_min _ _ min_a), (series_max_is_max _ _ max_a).
  rewrite (series_min_is_min _ _
             (is_min_with_newcomer _ _ _ _ Cn (proj1 Rn) min_n)).
  rewrite (series_max_is_max _ _
             (is_max_with_newcomer _ _ _ _ Cn (proj2 Rn) max_n)).
  rewrite (series_min_is_min _ _
             (is_min_with_newcomer _ _ _ _ Ca (proj1 Ra) min_a)).
  rewrite (series_max_is_max _ _
             (is_max_with_newcomer _ _ _ _ Ca (proj2 Ra) max_a)).
  reflexivity.
Qed.

(** ** Selection and scoring together *)

Lemma loc_churned_scorer (table : list customer) :
  loc_churned (scorer table)
  = map (score_row table) (filter (fun c => churned c =? 1) table).
Proof.
  unfold loc_churned, scorer. rewrite filter_map_swap. reflexivity.
Qed.

Lemma selection_rows (table : list customer) :
  top_50_churned (scorer table)
  = map (score_row table) (head 50 (filter (fun c => churned c =? 1) table)) /\
  map summary (top_50_churned (scorer table))
  = head 50 (filter (fun c => churned c =? 1) table).
Proof.
  assert (E : top_50_churned (scorer table)
              = map (score_row table)
                    (head 50 (filter (fun c => churned c =? 1) table))).
  { unfold top_50_churned, head. rewrite loc_churned_scorer.
    apply firstn_map. }
  split; [exact E |].
  rewrite E, map_map. simpl. apply map_id.
Qed.

(** Scoring changes neither the labels nor the order of the rows, so the
    selection from the scored table is the scored form of the first 50
    churned rows of the summary table; the scores play no part in who is
    selected. *)
Theorem selection_of_scored_table (table : list customer) :
  top_50_churned (scorer table)
  = map (score_row table) (head 50 (filter (fun c => churned c =? 1) table)) /\
  map summary (top_50_churned (scorer table))
  = head 50 (filter (fun c => churned c =? 1) table).
Proof. apply selection_rows. Qed.

(** Selecting again from a selection changes nothing. *)
Theorem selection_idempotent (table : list scored) :
  top_50_churned (top_50_churned table) = top_50_churned table.
Proof.
  unfold top_50_churned at 1.
  assert (E : loc_churned (top_50_churned table) = top_50_churned table).
  { unfold loc_churned at 1. apply forallb_filter_id, forallb_forall.
    intros r Hr. apply head_in in Hr. unfold loc_churned in Hr.
    apply filter_In in Hr. tauto. }
  rewrite E. unfold top_50_churned, head.
  rewrite firstn_firstn, Nat.min_id. reflexivity.
Qed.

(** ** The whole notebook *)

Lemma sorted_map_filter {A B : Type} (R : B -> B -> Prop) (f : A -> B)
    (p : A -> bool) (l : list A) :
  StronglySorted R (map f l) -> StronglySorted R (map f (filter p l)).
Proof.
  induction l as [| x l IH]; simpl; intros S; [constructor |].
  apply StronglySorted_inv in S. destruct S as [S F].
  destruct (p x); simpl; [| apply IH, S].
  constructor; [apply IH, S |].
  rewrite Forall_forall in F |- *. intros y Hy. apply F.
  apply in_map_iff in Hy. destruct Hy as [z [<- Hz]].
  apply in_map. apply filter_In in Hz. tauto.
Qed.

Lemma sorted_map_head {A B : Type} (R : B -> B -> Prop) (f : A -> B)
    (n : nat) (l : list A) :
  StronglySorted R (map f l) -> StronglySorted R (map f (head n l)).
Proof.
  unfold head. revert l. induction n as [| n IH]; intros l S; simpl.
  - constructor.
  - destruct l as [| x l]; simpl in *; [constructor |].
    apply StronglySorted_inv in S. destruct S as [S F].
    constructor; [apply IH, S |].
    rewrite Forall_forall in F |- *. intros y Hy. apply F.
    apply in_map_iff in Hy. destruct Hy as [z [<- Hz]].
    apply in_map. apply (head_in n), Hz.
Qed.

(** From the transactions to the selection: the notebook selects at most
    50 rows, listed by increasing customer id; every selected customer
    occurs in the transaction table and has all transactions strictly
    before the cutoff day; and a churned customer is selected as soon as
    there are no more than 50 churned customers. *)
Theorem pipeline_selects_churned_customers (data : list transaction) :
  (List.length (pipeline data) <= 50)%nat /\
  StronglySorted key_lt (map (fun r => cust_id (summary r)) (pipeline data)) /\
  (forall r, In r (pipeline data) ->
     In (cust_id (summary r)) (map customer_id data) /\
     forall t, In t data -> customer_id t = cust_id (summary r) ->
               datetime_lt (trans_date t) cutoff_day) /\
  (Z.of_nat (List.length (filter (fun c => churned c =? 1) (best_churn data)))
   <= 50 ->
   forall s, In s (best_churn data) -> churned s = 1 ->
             In s (map summary (pipeline data))).
Proof.
  unfold pipeline.
  destruct (selection_rows (best_churn data)) as [E Es].
  split; [apply firstn_le_length |].
  split; [| split].
  - rewrite <- (map_map summary cust_id), Es.
    apply sorted_map_head, sorted_map_filter.
    rewrite best_churn_ids. apply group_keys_sorted.
  - intros r Hr.
    assert (Hs : In (summary r)
                    (head 50 (filter (fun c => churned c =? 1)
                                     (best_churn data))))
      by (rewrite <- Es; apply in_map, Hr).
    apply head_in, filter_In in Hs. destruct Hs as [Hs Hc].
    apply Z.eqb_eq in Hc.
    destruct (best_churn_row data _ Hs) as [Hin Erow].
    split; [exact Hin |].
    destruct (group_rows_latest _ _ Hin) as [d [Hd Hl]].
    apply (latest_before_iff _ _ d cutoff_day Hl), label_one_iff.
    rewrite Erow in Hc. simpl in Hc. rewrite Hd in Hc. exact Hc.
  - intros Hlen s Hs Hc. rewrite Es. unfold head.
    rewrite firstn_all2 by lia.
    apply filter_In. split; [exact Hs | apply Z.eqb_eq, Hc].
Qed.

(** ** Instances of the further properties *)

(** The row of customer "B" in the summary of the three sample
    transactions. *)
Lemma summary_rows_nonempty_witness :
  let b := mk_customer "B" (Some (mk_datetime 2019 3 1)) 1 2 40 in
  In b (best_churn two_churned) /\
  1 <= nr_of_transactions b /\
  nr_of_transactions b = count_for "B" two_churned.
Proof.
  assert (H : In (mk_customer "B" (Some (mk_datetime 2019 3 1)) 1 2 40)
                 (best_churn two_churned)) by (vm_compute; tauto).
  split; [exact H |].
  destruct (summary_rows_nonempty two_churned _ H) as [_ [H1 [H2 _]]].
  split; assumption.
Defined.

(** The three sample transactions with the first two exchanged. *)
Lemma aggregation_order_independent_witness :
  best_churn two_churned
  = best_churn [ mk_transaction "A" (mk_datetime 2019 1 1) 10;
                 mk_transaction "B" (mk_datetime 2019 2 1) 20;
                 mk_transaction "B" (mk_datetime 2019 3 1) 20 ].
Proof.
  apply (aggregation_order_independent two_churned).
  unfold two_churned. apply perm_swap.
Defined.

(** Customer "B" of the sample, whose two transactions are from February
    and March 2019. *)
Lemma churned_iff_all_transactions_before_cutoff_witness :
  let b := mk_customer "B" (Some (mk_datetime 2019 3 1)) 1 2 40 in
  In b (best_churn two_churned) /\
  (churned b = 1 <->
   forall t, In t two_churned -> customer_id t = cust_id b ->
             datetime_lt (trans_date t) cutoff_day).
Proof.
  assert (H : In (mk_customer "B" (Some (mk_datetime 2019 3 1)) 1 2 40)
                 (best_churn two_churned)) by (vm_compute; tauto).
  split; [exact H |].
  exact (churned_iff_all_transactions_before_cutoff two_churned _ H).
Defined.

(** 2019-10-14 and 2019-10-15, both before the cutoff day. *)
Lemma churn_label_monotone_witness :
  datetime_le (mk_datetime 2019 10 14) (mk_datetime 2019 10 15) /\
  (churned_label (Some (mk_datetime 2019 10 15)) = 1 ->
   churned_label (Some (mk_datetime 2019 10 14)) = 1).
Proof.
  assert (H : datetime_le (mk_datetime 2019 10 14) (mk_datetime 2019 10 15))
    by (left; unfold datetime_lt; simpl; lia).
  split; [exact H |].
  exact (proj1 (churn_label_monotone _ _ H)).
Defined.

(** The first row of the table with tied transaction counts. *)
Lemma score_nan_iff_tied_feature_witness :
  let a := mk_customer "A" (Some (mk_datetime 2019 10 14)) 1 3 10 in
  In (score_row tied_counts a) (scorer tied_counts) /\
  (score (score_row tied_counts a) = NaN \/
   exists q, score (score_row tied_counts a) = Fin q).
Proof.
  assert (H : In (score_row tied_counts
                    (mk_customer "A" (Some (mk_datetime 2019 10 14)) 1 3 10))
                 (scorer tied_counts))
    by (unfold scorer; simpl; tauto).
  split; [exact H |].
  exact (proj2 (score_nan_iff_tied_feature tied_counts _ H)).
Defined.

(** The five printed amounts, counted in cents and shifted by 5. *)
Lemma min_max_scale_affine_invariant_witness :
  let col := [1012; 1490; 1432; 1659; 857] in
  0 < 100 /\ In 857 col /\
  same_float
    (min_max_scale (dtype_of (map (fun y => 100 * y + 5) col))
                   (series_min (map (fun y => 100 * y + 5) col))
                   (series_max (map (fun y => 100 * y + 5) col))
                   (100 * 857 + 5))
    (min_max_scale (dtype_of col) (series_min col) (series_max col) 857).
Proof.
  split; [lia |]. split; [simpl; tauto |].
  apply (min_max_scale_affine_invariant [1012; 1490; 1432; 1659; 857]).
  - lia.
  - simpl; tauto.
  - intros y Hy. simpl in Hy. intuition (subst; reflexivity).
  - intros y z Hy Hz. simpl in Hy, Hz. intuition (subst; lia).
Defined.

(** A sixth customer with 17 transactions and amount 1185 joins the five
    printed rows. *)
Lemma newcomer_within_range_keeps_scores_witness :
  let new := mk_customer "N" (Some (mk_datetime 2019 11 1)) 0 17 1185 in
  13 <= nr_of_transactions new <= 22 /\
  857 <= amount_spent new <= 1659 /\
  score_row (first_five ++ [new]) fm1116 = score_row first_five fm1116.
Proof.
  split; [simpl; lia |]. split; [simpl; lia |].
  apply (newcomer_within_range_keeps_scores
           first_five _
           (mk_customer "N" (Some (mk_datetime 2019 11 1)) 0 17 1185)
           13 22 857 1659).
  - extremum.
  - extremum.
  - extremum.
  - extremum.
  - intros x. simpl. intuition congruence.
  - simpl; lia.
  - simpl; lia.
Defined.
